(** * Tiling an image into square files: the two [crop_image.py] scripts

    The repository holds two copies of one routine,
    [cut_image_into_squares], which opens an image, computes how many
    squares of a given edge fit horizontally and vertically, makes sure the
    destination folder exists and saves every square as
    [square_{row}_{col}.png]:

    - [Crop Images Into Squares/crop_image.py], driven by [input()] prompts;
    - [crop_image.py], driven by [sys.argv], which also prints a final
      message.

    The scripts are embedded as programs of a small state-and-error monad
    whose primitive operations are the calls the scripts make into Python's
    builtins, [os] and [PIL.Image].  What those calls answer is left to a
    [Host]; every call is recorded in an event trace.  The [input()]
    prompts that feed the first script are not embedded; its
    [cut_image_into_squares] is, and so is the whole of the second
    script. *)

From Stdlib Require Import ZArith NArith List String Ascii Lia.
From Stdlib Require Import DecimalString DecimalZ.
From stdpp Require Import base gmap strings list.

Local Open Scope Z_scope.

(** ** Python values *)

Module Python.

(** The exceptions the scripts can meet.  [oserror] gathers what the
    file system and the image codec may report. *)
Inductive oserror :=
| FileNotFoundError
| FileExistsError
| NotADirectoryError
| IsADirectoryError
| PermissionError
| UnidentifiedImageError.

Inductive exn :=
| ZeroDivisionError
| ValueError
| IndexError
| OSError (e : oserror)
| SystemExit (status : Z).

(** [str(n)] for an [int]: decimal digits, a leading minus sign for a
    negative number, no padding. *)
Definition str (n : Z) : string := NilZero.string_of_int (Z.to_int n).

(** [range(n)]: [0, 1, ..., n-1], empty when [n <= 0]. *)
Definition range (n : Z) : list Z := seqZ 0 n.

(** [posixpath.join] for two components. *)
Definition startswith_slash (s : string) : bool :=
  match s with
  | String c _ => Ascii.eqb c "/"
  | EmptyString => false
  end.

Fixpoint endswith_slash (s : string) : bool :=
  match s with
  | EmptyString => false
  | String c EmptyString => Ascii.eqb c "/"
  | String _ r => endswith_slash r
  end.

Definition os_path_join (a b : string) : string :=
  if startswith_slash b then b
  else if String.eqb a "" || endswith_slash a then a +:+ b
  else a +:+ "/" +:+ b.

End Python.
Export Python.

(** ** PIL images *)

Module PIL.

Definition pixel := N.

(** A decoded raster: its dimensions and the value at each coordinate.
    [pixels] is only meaningful inside the raster. *)
Record image := Image {
  width : N;
  height : N;
  pixels : Z -> Z -> pixel
}.

(** [img.size] *)
Definition size (img : image) : Z * Z := (Z.of_N (width img), Z.of_N (height img)).

Definition inside (img : image) (x y : Z) : bool :=
  (0 <=? x) && (x <? Z.of_N (width img)) && (0 <=? y) && (y <? Z.of_N (height img)).

(** The pixel at [(x, y)], when the raster has one there. *)
Definition pixel_at (img : image) (x y : Z) : option pixel :=
  if inside img x y then Some (pixels img x y) else None.

(** [img.crop((x0, y0, x1, y1))], the box being (left, top, right,
    bottom): a raster of [x1 - x0] by [y1 - y0] pixels whose pixel
    [(x, y)] is the source's pixel [(x0 + x, y0 + y)]; PIL fills what lies
    outside the source with zero. *)
Definition crop (img : image) (box : Z * Z * Z * Z) : image :=
  let '(x0, y0, x1, y1) := box in
  {| width := Z.to_N (x1 - x0);
     height := Z.to_N (y1 - y0);
     pixels := fun x y =>
       if inside img (x0 + x) (y0 + y)
       then pixels img (x0 + x) (y0 + y) else 0%N |}.

End PIL.
Export PIL.

(** ** The host: what the calls into [os], [PIL] and the builtins answer

    The file system, the codec and the console are not part of the
    scripts.  A host gives them a state ([world]) and an answer to each
    call; a call into the file system may fail with an [oserror], and may
    have changed the world even so.  [Image.open] is taken to hand back the
    decoded raster, and what [save] writes is identified with the raster it
    is given (PNG is lossless). *)

Class Host := {
  world : Type;
  (** [Image.open(path)], with the raster decoded *)
  Image_open : string -> world -> oserror + image;
  (** [os.path.exists(path)] *)
  os_path_exists : string -> world -> bool;
  (** [os.path.isdir(path)]; the scripts never call it, the statements do *)
  os_path_isdir : string -> world -> bool;
  (** [os.makedirs(path)] *)
  os_makedirs : string -> world -> world * option oserror;
  (** [square.save(path)] *)
  Image_save : image -> string -> world -> world * option oserror;
  (** [print(line)] *)
  builtin_print : string -> world -> world;
  (** [int(text)], [None] standing for [ValueError] *)
  builtin_int : string -> option Z
}.

(** What a well-behaved file system guarantees about directories. *)
Class HostLaws (H : Host) : Prop := {
  isdir_exists p w :
    os_path_isdir p w = true -> os_path_exists p w = true;
  makedirs_isdir p w w' :
    os_makedirs p w = (w', None) -> os_path_isdir p w' = true;
  save_isdir img q p w w' :
    Image_save img q w = (w', None) ->
    os_path_isdir p w = true -> os_path_isdir p w' = true;
  save_exists img q p w w' :
    Image_save img q w = (w', None) ->
    os_path_exists p w = true -> os_path_exists p w' = true;
  print_isdir line p w :
    os_path_isdir p (builtin_print line w) = os_path_isdir p w;
  print_exists line p w :
    os_path_exists p (builtin_print line w) = os_path_exists p w
}.

(** ** Traces and the monad of scripts *)

(** A call made to the host, whether it succeeded or not. *)
Inductive event :=
| EOpen (path : string)
| EExists (path : string)
| EMakedirs (path : string)
| ESave (square : image) (path : string)
| EPrint (line : string).

Section Monad.
Context {H : Host}.

(** The calls issued (in order), the world they leave and how the
    computation ended. *)
Record result (A : Type) := Result {
  events : list event;
  final : world;
  outcome : exn + A
}.
Arguments Result {A} _ _ _.
Arguments events {A} _.
Arguments final {A} _.
Arguments outcome {A} _.

Definition M (A : Type) : Type := world -> result A.

Definition ret {A} (a : A) : M A := fun w => Result [] w (inr a).

Definition raise {A} (e : exn) : M A := fun w => Result [] w (inl e).

Definition bind {A B} (m : M A) (f : A -> M B) : M B := fun w =>
  let r := m w in
  match outcome r with
  | inl e => Result (events r) (final r) (inl e)
  | inr a =>
      let r' := f a (final r) in
      Result (events r ++ events r') (final r') (outcome r')
  end.

(** [for x in xs: body x] *)
Fixpoint for_ {X} (xs : list X) (body : X -> M unit) : M unit :=
  match xs with
  | [] => ret tt
  | x :: xs' => bind (body x) (fun _ => for_ xs' body)
  end.

(** The primitive calls. *)
Definition call_Image_open (path : string) : M image := fun w =>
  match Image_open path w with
  | inl e => Result [EOpen path] w (inl (OSError e))
  | inr img => Result [EOpen path] w (inr img)
  end.

Definition call_os_path_exists (path : string) : M bool := fun w =>
  Result [EExists path] w (inr (os_path_exists path w)).

Definition lift_os (ev : event) (r : world * option oserror) : result unit :=
  match r with
  | (w', Some e) => Result [ev] w' (inl (OSError e))
  | (w', None) => Result [ev] w' (inr tt)
  end.

Definition call_os_makedirs (path : string) : M unit := fun w =>
  lift_os (EMakedirs path) (os_makedirs path w).

Definition call_save (square : image) (path : string) : M unit := fun w =>
  lift_os (ESave square path) (Image_save square path w).

Definition call_print (line : string) : M unit := fun w =>
  Result [EPrint line] (builtin_print line w) (inr tt).

(** [a // b] on [int]: floor division, [ZeroDivisionError] on [b = 0]. *)
Definition floordiv (a b : Z) : M Z :=
  if b =? 0 then raise ZeroDivisionError else ret (a / b).

(** [int(text)] *)
Definition call_int (text : string) : M Z :=
  match builtin_int text with
  | Some n => ret n
  | None => raise ValueError
  end.

(** [xs[i]] on a list *)
Definition getitem (xs : list string) (i : nat) : M string :=
  match nth_error xs i with
  | Some x => ret x
  | None => raise IndexError
  end.

(** [sys.exit(status)] *)
Definition sys_exit {A} (status : Z) : M A := raise (SystemExit status).

End Monad.

Arguments Result {H A} _ _ _.
Arguments events {H A} _.
Arguments final {H A} _.
Arguments outcome {H A} _.

Declare Scope script_scope.
Delimit Scope script_scope with script.
Notation "x <- m ;; k" := (bind m (fun x => k))
  (at level 100, m at next level, right associativity) : script_scope.
Notation "m ;;; k" := (bind m (fun _ => k))
  (at level 100, right associativity) : script_scope.
Local Open Scope script_scope.

(** ** [Crop Images Into Squares/crop_image.py] *)

Module CropImagesIntoSquares.
Section Script.
Context {H : Host}.

Definition cut_image_into_squares
    (image_png : string) (square_size : Z) (destination_folder : string) : M unit :=
  img <- call_Image_open image_png ;;
  let '(width, height) := size img in
  number_squares_horizontal <- floordiv width square_size ;;
  number_squares_vertical <- floordiv height square_size ;;
  present <- call_os_path_exists destination_folder ;;
  (if negb present then call_os_makedirs destination_folder else ret tt) ;;;
  for_ (range number_squares_vertical) (fun j =>
    for_ (range number_squares_horizontal) (fun i =>
      let left := i * square_size in
      let top := j * square_size in
      let right := left + square_size in
      let bottom := top + square_size in
      let square := crop img (left, top, right, bottom) in
      let file_name := "square_" +:+ str j +:+ "_" +:+ str i +:+ ".png" in
      let destination_path := os_path_join destination_folder file_name in
      call_save square destination_path)).

End Script.
End CropImagesIntoSquares.

(** ** [crop_image.py] (argument-driven) *)

Module CropImage.
Section Script.
Context {H : Host}.

Definition cut_image_into_squares
    (image_png : string) (square_size : Z) (destination_folder : string) : M unit :=
  img <- call_Image_open image_png ;;
  let '(width, height) := size img in
  number_squares_horizontal <- floordiv width square_size ;;
  number_squares_vertical <- floordiv height square_size ;;
  present <- call_os_path_exists destination_folder ;;
  (if negb present then call_os_makedirs destination_folder else ret tt) ;;;
  for_ (range number_squares_vertical) (fun j =>
    for_ (range number_squares_horizontal) (fun i =>
      let left := i * square_size in
      let top := j * square_size in
      let right := left + square_size in
      let bottom := top + square_size in
      let square := crop img (left, top, right, bottom) in
      let file_name := "square_" +:+ str j +:+ "_" +:+ str i +:+ ".png" in
      let destination_path := os_path_join destination_folder file_name in
      call_save square destination_path)) ;;;
  call_print "Images successfully applied to folder.".

(** The block under [if __name__ == "__main__":], with [sys.argv] as
    argument. *)
Definition main (argv : list string) : M unit :=
  (if negb (Nat.eqb (length argv) 4)
   then call_print "Usage: script.py <image_path> <square_size> <destination_folder>" ;;;
        sys_exit 1
   else ret tt) ;;;
  image_path <- getitem argv 1 ;;
  text <- getitem argv 2 ;;
  square_size <- call_int text ;;
  destination_folder <- getitem argv 3 ;;
  cut_image_into_squares image_path square_size destination_folder.

End Script.
End CropImage.

(** ** The two scripts side by side *)

Inductive script := Prompted | ArgumentDriven.

Definition cut {H : Host} (v : script) : string -> Z -> string -> M unit :=
  match v with
  | Prompted => CropImagesIntoSquares.cut_image_into_squares
  | ArgumentDriven => CropImage.cut_image_into_squares
  end.

(** What [ArgumentDriven] prints after the loops. *)
Definition epilogue (v : script) : list event :=
  match v with
  | Prompted => []
  | ArgumentDriven => [EPrint "Images successfully applied to folder."]
  end.

(** The exit status of the Python process for an outcome of the script. *)
Definition exit_status {A} (o : exn + A) : Z :=
  match o with
  | inr _ => 0
  | inl (SystemExit status) => status
  | inl _ => 1
  end.

(** ** The quantities of the loop body, by name *)

Definition number_squares_horizontal (img : image) (square_size : Z) : Z :=
  fst (size img) / square_size.

Definition number_squares_vertical (img : image) (square_size : Z) : Z :=
  snd (size img) / square_size.

Definition file_name (j i : Z) : string :=
  "square_" +:+ str j +:+ "_" +:+ str i +:+ ".png".

(** [(left, top, right, bottom)] of the square in row [j], column [i]. *)
Definition tile_box (square_size j i : Z) : Z * Z * Z * Z :=
  (i * square_size, j * square_size,
   i * square_size + square_size, j * square_size + square_size).

(** The pixel [(x, y)] of the source lies in the box. *)
Definition in_box (box : Z * Z * Z * Z) (x y : Z) : Prop :=
  let '(x0, y0, x1, y1) := box in x0 <= x < x1 /\ y0 <= y < y1.

(** The [save] call of the loop body at row [j], column [i]. *)
Definition tile (img : image) (square_size : Z) (destination_folder : string)
    (c : Z * Z) : event :=
  ESave (crop img (tile_box square_size (fst c) (snd c)))
        (os_path_join destination_folder (file_name (fst c) (snd c))).

(** The coordinates the two loops visit, in the order they visit them. *)
Definition grid (rows columns : Z) : list (Z * Z) :=
  range rows ≫= (fun j => (fun i => (j, i)) <$> range columns).

Definition tiles (img : image) (square_size : Z) (destination_folder : string)
    : list event :=
  tile img square_size destination_folder <$>
    grid (number_squares_vertical img square_size)
         (number_squares_horizontal img square_size).

(** The [save] calls of a trace: path and raster written. *)
Definition saves (t : list event) : list (string * image) :=
  omap (fun e => match e with ESave sq p => Some (p, sq) | _ => None end) t.

Definition made_dirs (t : list event) : list string :=
  omap (fun e => match e with EMakedirs p => Some p | _ => None end) t.

(** The file the loop body writes at row [fst c], column [snd c]: its path
    and its raster. *)
Definition tile_file (img : image) (square_size : Z) (destination_folder : string)
    (c : Z * Z) : string * image :=
  (os_path_join destination_folder (file_name (fst c) (snd c)),
   crop img (tile_box square_size (fst c) (snd c))).

(** The character [c] does not occur in the string. *)
Fixpoint free_of (c : ascii) (s : string) : Prop :=
  match s with
  | EmptyString => True
  | String a r => a <> c /\ free_of c r
  end.

(** ** The stages of a call

    [cut_image_into_squares] opens the image, divides, then goes through
    the three stages below; [cut_eq] proves that this reading is the
    script. *)

Section Stages.
Context {H : Host}.

Definition ensure_dir (destination_folder : string) : M unit :=
  present <- call_os_path_exists destination_folder ;;
  if negb present then call_os_makedirs destination_folder else ret tt.

Definition save_tile (img : image) (square_size : Z) (destination_folder : string)
    (c : Z * Z) : M unit :=
  call_save (crop img (tile_box square_size (fst c) (snd c)))
            (os_path_join destination_folder (file_name (fst c) (snd c))).

Definition finish (v : script) : M unit :=
  match v with
  | Prompted => ret tt
  | ArgumentDriven => call_print "Images successfully applied to folder."
  end.

(** The world once the destination folder has been seen to. *)
Definition after_ensure (destination_folder : string) (w : world) : world :=
  if os_path_exists destination_folder w then w
  else fst (os_makedirs destination_folder w).

(** [os.makedirs] is called exactly when [os.path.exists] answers no. *)
Definition ensure_events (destination_folder : string) (w : world) : list event :=
  EExists destination_folder ::
  (if os_path_exists destination_folder w then [] else [EMakedirs destination_folder]).

(** The folder is there, or [os.makedirs] manages to create it. *)
Definition can_ensure (destination_folder : string) (w : world) : Prop :=
  os_path_exists destination_folder w = true \/
  snd (os_makedirs destination_folder w) = None.

(** The call raises before it has asked for a directory or written a
    file. *)
Definition rejects_before_io (r : result unit) : Prop :=
  (exists e, outcome r = inl e) /\
  made_dirs (events r) = [] /\ saves (events r) = [].

(** After a call that returns, the destination path is a directory. *)
Definition leaves_directory (r : result unit) (destination_folder : string) : Prop :=
  outcome r = inr tt -> os_path_isdir destination_folder (final r) = true.

End Stages.

(** ** A reference host

    A flat file system: directories and files are keyed by the path string
    as given (no aliasing through [.], [..], repeated slashes or links), a
    file holds either an image or something PIL cannot read, and nothing is
    ever refused for lack of permission. *)

Module Ref.

Inductive content := PngFile (img : image) | OtherFile.

Record fs := Fs {
  dirs : gset string;
  files : gmap string content;
  stdout : list string
}.

Definition exists_ (p : string) (w : fs) : bool :=
  bool_decide (p ∈ dirs w) || bool_decide (is_Some (files w !! p)).

Definition isdir (p : string) (w : fs) : bool := bool_decide (p ∈ dirs w).

Definition open (p : string) (w : fs) : oserror + image :=
  match files w !! p with
  | Some (PngFile img) => inr img
  | Some OtherFile => inl UnidentifiedImageError
  | None => inl (if isdir p w then IsADirectoryError else FileNotFoundError)
  end.

(** Some regular file of the store is used as a directory by [p]. *)
Definition through_file (p : string) (w : fs) : bool :=
  bool_decide (Exists (fun f => String.prefix (f.1 +:+ "/") p = true)
                      (map_to_list (files w))).

Definition makedirs (p : string) (w : fs) : fs * option oserror :=
  if String.eqb p "" then (w, Some FileNotFoundError)
  else if exists_ p w then (w, Some FileExistsError)
  else if through_file p w then (w, Some NotADirectoryError)
  else (Fs ({[p]} ∪ dirs w) (files w) (stdout w), None).

Definition save (img : image) (p : string) (w : fs) : fs * option oserror :=
  if isdir p w then (w, Some IsADirectoryError)
  else if through_file p w then (w, Some NotADirectoryError)
  else (Fs (dirs w) (<[p := PngFile img]> (files w)) (stdout w), None).

Definition print (line : string) (w : fs) : fs :=
  Fs (dirs w) (files w) (stdout w ++ [line]).

(** [int] on an optional minus sign followed by decimal digits; the other
    spellings Python reads (a plus sign, blanks, underscores) are left
    out. *)
Definition int (text : string) : option Z :=
  match text with
  | EmptyString => None
  | String "-" EmptyString => None
  | _ => option_map Z.of_int (NilEmpty.int_of_string text)
  end.

#[export] Instance host : Host := {|
  world := fs;
  Image_open := open;
  os_path_exists := exists_;
  os_path_isdir := isdir;
  os_makedirs := makedirs;
  Image_save := save;
  builtin_print := print;
  builtin_int := int
|}.

(** A 5 by 3 raster whose pixel [(x, y)] holds [10 y + x]. *)
Definition sample : image :=
  Image 5 3 (fun x y => Z.to_N (10 * y + x)).

(** A store holding [sample] as ["img.png"] and nothing else. *)
Definition disk : fs := Fs ∅ {[ "img.png" := PngFile sample ]} [].

End Ref.

(** ** Reading back what was saved

    What a file system with distinct files under distinct path strings
    guarantees: a file saved can be opened again as the raster saved, and
    neither a [save] elsewhere nor a [print] disturbs it. *)

Class StoreLaws (H : Host) : Prop := {
  save_open img q w w' :
    Image_save img q w = (w', None) -> Image_open q w' = inr img;
  save_open_other img q p w w' :
    Image_save img q w = (w', None) -> p <> q ->
    Image_open p w' = Image_open p w;
  print_open line p w :
    Image_open p (builtin_print line w) = Image_open p w
}.

(** ** The prompts of [Crop Images Into Squares/crop_image.py]

    After its [cut_image_into_squares] the first script asks for the image
    path until [os.path.isfile] accepts it, then for the edge and for the
    folder, and calls the routine.  The lines the user will type are a list
    ([sys.stdin], one entry per line, without the newline); [input] writes
    its prompt, takes the next line and raises [EOFError] when there is
    none. *)

Class Terminal (H : Host) := {
  (** [os.path.isfile(path)] *)
  os_path_isfile : string -> world -> bool;
  (** the prompt of [input(prompt)] reaching the console *)
  show_prompt : string -> world -> world
}.

(** What a console changes of the file system: nothing. *)
Class TerminalLaws (H : Host) (T : Terminal H) : Prop := {
  print_isfile line p w :
    os_path_isfile p (builtin_print line w) = os_path_isfile p w;
  prompt_isfile text p w :
    os_path_isfile p (show_prompt text w) = os_path_isfile p w
}.

Inductive tty_exn :=
| EOFError
| Raised (e : exn).

(** What happens in a session: a line asked for (and the line typed, if
    any), a path checked (and the answer), a call of the kinds the routine
    makes. *)
Inductive tty_event :=
| TInput (prompt : string) (line : option string)
| TIsfile (path : string) (answer : bool)
| TCall (e : event).

Section Sessions.
Context {H : Host} {T : Terminal H}.

Record session (A : Type) := Session {
  transcript : list tty_event;
  unread : list string;
  world_after : world;
  ended : tty_exn + A
}.
Arguments Session {A} _ _ _ _.
Arguments transcript {A} _.
Arguments unread {A} _.
Arguments world_after {A} _.
Arguments ended {A} _.

(** A computation that may read lines: from the lines still unread and the
    world to a session. *)
Definition I (A : Type) : Type := list string -> world -> session A.

Definition iret {A} (a : A) : I A := fun stdin w => Session [] stdin w (inr a).

Definition ibind {A B} (m : I A) (f : A -> I B) : I B := fun stdin w =>
  let r := m stdin w in
  match ended r with
  | inl e => Session (transcript r) (unread r) (world_after r) (inl e)
  | inr a =>
      let r' := f a (unread r) (world_after r) in
      Session (transcript r ++ transcript r') (unread r') (world_after r') (ended r')
  end.

(** A computation of the routine's monad, run inside a session. *)
Definition lift {A} (m : M A) : I A := fun stdin w =>
  let r := m w in
  Session (TCall <$> events r) stdin (final r)
          (match outcome r with inl e => inl (Raised e) | inr a => inr a end).

(** [input(prompt)] *)
Definition call_input (prompt : string) : I string := fun stdin w =>
  match stdin with
  | [] => Session [TInput prompt None] [] (show_prompt prompt w) (inl EOFError)
  | line :: rest =>
      Session [TInput prompt (Some line)] rest (show_prompt prompt w) (inr line)
  end.

(** [os.path.isfile(path)] *)
Definition call_os_path_isfile (path : string) : I bool := fun stdin w =>
  Session [TIsfile path (os_path_isfile path w)] stdin w
          (inr (os_path_isfile path w)).

(** [while not os.path.isfile(image_path): print(...); image_path = input(...)],
    returning the last [image_path].  Each turn of the loop takes one line,
    so the loop is defined by recursion on the lines still unread;
    [while_not_isfile_eq] shows it is the loop. *)
Fixpoint while_not_isfile (image_path : string) (stdin : list string) (w : world)
    : session string :=
  if os_path_isfile image_path w then
    Session [TIsfile image_path true] stdin w (inr image_path)
  else
    let w1 := builtin_print "Invalid image path. Try again." w in
    let w2 := show_prompt "Enter the image path: " w1 in
    match stdin with
    | [] =>
        Session [TIsfile image_path false;
                 TCall (EPrint "Invalid image path. Try again.");
                 TInput "Enter the image path: " None]
                [] w2 (inl EOFError)
    | line :: rest =>
        let r := while_not_isfile line rest w2 in
        Session (TIsfile image_path false ::
                 TCall (EPrint "Invalid image path. Try again.") ::
                 TInput "Enter the image path: " (Some line) :: transcript r)
                (unread r) (world_after r) (ended r)
    end.

End Sessions.

Arguments Session {H A} _ _ _ _.
Arguments transcript {H A} _.
Arguments unread {H A} _.
Arguments world_after {H A} _.
Arguments ended {H A} _.

Declare Scope session_scope.
Delimit Scope session_scope with session.
Notation "x <- m ;; k" := (ibind m (fun x => k))
  (at level 100, m at next level, right associativity) : session_scope.
Notation "m ;;; k" := (ibind m (fun _ => k))
  (at level 100, right associativity) : session_scope.

Module Prompts.
Section Script.
Context {H : Host} {T : Terminal H}.

(** The statements after [cut_image_into_squares], lines 30 to 45. *)
Definition main : I unit :=
  (image_path <- call_input "Enter the image path: " ;;
   image_path <- while_not_isfile image_path ;;
   text <- call_input "Enter the size of the square: " ;;
   square_size <- lift (call_int text) ;;
   destination_folder <- call_input "Enter the destination folder name: " ;;
   lift (CropImagesIntoSquares.cut_image_into_squares
           image_path square_size destination_folder))%session.

End Script.
End Prompts.

(** What a transcript holds: the lines typed, the paths refused, the lines
    printed, the calls of the routine's kinds. *)
Definition answers (t : list tty_event) : list string :=
  omap (fun e => match e with TInput _ (Some l) => Some l | _ => None end) t.

Definition refused (t : list tty_event) : list string :=
  omap (fun e => match e with TIsfile p false => Some p | _ => None end) t.

Definition accepted (t : list tty_event) : list string :=
  omap (fun e => match e with TIsfile p true => Some p | _ => None end) t.

Definition calls (t : list tty_event) : list event :=
  omap (fun e => match e with TCall c => Some c | _ => None end) t.

Definition printed (t : list tty_event) : list string :=
  omap (fun e => match e with TCall (EPrint l) => Some l | _ => None end) t.

(** The world after the first prompt for the image path and [k] refusals,
    each a complaint followed by the prompt again. *)
Definition after_refusals {H : Host} {T : Terminal H} (k : nat) (w : world) : world :=
  Nat.iter k
    (fun w0 => show_prompt "Enter the image path: "
                 (builtin_print "Invalid image path. Try again." w0))
    (show_prompt "Enter the image path: " w).

(** The console of the reference host. *)
Definition ref_isfile (p : string) (w : Ref.fs) : bool :=
  bool_decide (is_Some (Ref.files w !! p)).

Definition ref_show_prompt (text : string) (w : Ref.fs) : Ref.fs :=
  Ref.Fs (Ref.dirs w) (Ref.files w) (Ref.stdout w ++ [text]).

#[export] Instance ref_terminal : Terminal Ref.host :=
  Build_Terminal Ref.host ref_isfile ref_show_prompt.

(** [Ref.disk] with the folder ["out"] already there and a directory in
    the place of the first square, so that the first [save] fails. *)
Definition ref_blocked : Ref.fs :=
  Ref.Fs {[ "out"; "out/square_0_0.png" ]} {[ "img.png" := Ref.PngFile Ref.sample ]} [].

(** ** Laws of the monad *)

Section MonadLaws.
Context {H : Host}.

Lemma bind_ext {A B} (m : M A) (f g : A -> M B) w :
  (forall a w', f a w' = g a w') -> bind m f w = bind m g w.
Proof.
  intros Hfg. unfold bind. destruct (outcome (m w)); [done|]. by rewrite Hfg.
Qed.

Lemma bind_cong {A B} (m m' : M A) (f g : A -> M B) w :
  m w = m' w -> (forall a w', f a w' = g a w') -> bind m f w = bind m' g w.
Proof.
  intros Hm Hfg. unfold bind. rewrite Hm.
  destruct (outcome (m' w)); [done|]. by rewrite Hfg.
Qed.

Lemma bind_ret_l {A B} (a : A) (f : A -> M B) w : bind (ret a) f w = f a w.
Proof. unfold bind, ret. simpl. by destruct (f a w). Qed.

Lemma bind_assoc {A B C} (m : M A) (f : A -> M B) (g : B -> M C) w :
  bind (bind m f) g w = bind m (fun a => bind (f a) g) w.
Proof.
  unfold bind. destruct (outcome (m w)) as [e|a]; simpl; [done|].
  destruct (outcome (f a (final (m w)))); simpl; [done|].
  by rewrite app_assoc.
Qed.

Lemma bind_ret_r (m : M unit) w : bind m (fun _ => ret tt) w = m w.
Proof.
  unfold bind, ret. destruct (m w) as [t w' [e|[]]]; simpl; [done|].
  by rewrite app_nil_r.
Qed.

Lemma outcome_bind_inr {A B} (m : M A) (f : A -> M B) w b :
  outcome (bind m f w) = inr b ->
  exists a, outcome (m w) = inr a /\ outcome (f a (final (m w))) = inr b.
Proof.
  unfold bind. destruct (outcome (m w)) as [e|a]; simpl; [done|]. eauto.
Qed.

Lemma bind_inr {A B} (m : M A) (f : A -> M B) w a :
  outcome (m w) = inr a ->
  bind m f w =
    Result (events (m w) ++ events (f a (final (m w))))
           (final (f a (final (m w)))) (outcome (f a (final (m w)))).
Proof. unfold bind. by intros ->. Qed.

Lemma bind_inl {A B} (m : M A) (f : A -> M B) w e :
  outcome (m w) = inl e ->
  bind m f w = Result (events (m w)) (final (m w)) (inl e).
Proof. unfold bind. by intros ->. Qed.

Lemma for_app {X} (xs ys : list X) (body : X -> M unit) w :
  for_ (xs ++ ys) body w = bind (for_ xs body) (fun _ => for_ ys body) w.
Proof.
  revert w. induction xs as [|x xs IH]; intros w; simpl.
  - unfold bind, ret; simpl. by destruct (for_ ys body w).
  - rewrite bind_assoc. by apply bind_ext.
Qed.

Lemma for_fmap {X Y} (g : X -> Y) (xs : list X) (body : Y -> M unit) w :
  for_ (g <$> xs) body w = for_ xs (fun x => body (g x)) w.
Proof.
  revert w. induction xs as [|x xs IH]; intros w; simpl; [done|].
  by apply bind_ext.
Qed.

(** Two nested [for] loops visit the pairs of the outer and inner lists,
    the inner list running faster. *)
Lemma for_nested {X Y} (xs : list X) (ys : list Y) (body : X -> Y -> M unit) w :
  for_ xs (fun x => for_ ys (body x)) w =
  for_ (xs ≫= (fun x => (fun y => (x, y)) <$> ys))
       (fun c => body (fst c) (snd c)) w.
Proof.
  revert w. induction xs as [|x xs IH]; intros w; simpl; [done|].
  rewrite for_app. apply bind_cong; [|done].
  by rewrite for_fmap.
Qed.

End MonadLaws.

(** ** The shape of a run *)

Section Runs.
Context {H : Host}.

Lemma cut_eq v image_png square_size destination_folder w :
  cut v image_png square_size destination_folder w =
  (img <- call_Image_open image_png ;;
   nh <- floordiv (fst (size img)) square_size ;;
   nv <- floordiv (snd (size img)) square_size ;;
   ensure_dir destination_folder ;;;
   for_ (grid nv nh) (save_tile img square_size destination_folder) ;;;
   finish v) w.
Proof.
  destruct v; simpl; unfold CropImagesIntoSquares.cut_image_into_squares,
    CropImage.cut_image_into_squares, ensure_dir, grid.
  - apply bind_ext; intros img w1. simpl.
    apply bind_ext; intros nh w2. apply bind_ext; intros nv w3.
    rewrite bind_assoc. apply bind_ext; intros present w4.
    apply bind_ext; intros _ w5.
    rewrite bind_ret_r. by rewrite for_nested.
  - apply bind_ext; intros img w1. simpl.
    apply bind_ext; intros nh w2. apply bind_ext; intros nv w3.
    rewrite bind_assoc. apply bind_ext; intros present w4.
    apply bind_ext; intros _ w5.
    apply bind_cong; [|done]. by rewrite for_nested.
Qed.

Lemma ensure_dir_run d w :
  events (ensure_dir d w) = ensure_events d w /\
  final (ensure_dir d w) = after_ensure d w /\
  (outcome (ensure_dir d w) = inr tt <-> can_ensure d w).
Proof.
  unfold ensure_dir, ensure_events, after_ensure, can_ensure, bind,
    call_os_path_exists, call_os_makedirs, lift_os, ret; simpl.
  destruct (os_path_exists d w); simpl.
  - split_and!; [done..|]. split; [by left|done].
  - destruct (os_makedirs d w) as [w' [e|]]; simpl.
    + split_and!; [done..|]. split; [by inversion 1|by intros [|]].
    + split_and!; [done..|]. split; [by right|done].
Qed.

(** The only way for this stage to raise is a failing [os.makedirs]. *)
Lemma ensure_dir_raises d w e :
  outcome (ensure_dir d w) = inl e ->
  os_path_exists d w = false /\
  exists oe, e = OSError oe /\ snd (os_makedirs d w) = Some oe.
Proof.
  unfold ensure_dir, bind, call_os_path_exists, call_os_makedirs, lift_os, ret; simpl.
  destruct (os_path_exists d w); simpl; [done|].
  destruct (os_makedirs d w) as [w' [oe|]]; simpl; [|done].
  intros [= <-]. eauto.
Qed.

Lemma for_save_events img s d cs w u :
  outcome (for_ cs (save_tile img s d) w) = inr u ->
  events (for_ cs (save_tile img s d) w) = tile img s d <$> cs.
Proof.
  revert w. induction cs as [|c cs IH]; intros w; simpl; [done|].
  intros Hok. destruct (outcome_bind_inr _ _ _ _ Hok) as ([] & Hc & Hrest).
  rewrite (bind_inr _ _ _ _ Hc). simpl. rewrite (IH _ Hrest).
  f_equal. revert Hc. unfold save_tile, call_save, lift_os, tile.
  by destruct (Image_save _ _ w) as [w' [e|]].
Qed.

(** A property of the world that no successful [save] breaks survives the
    loop. *)
Lemma for_save_invariant (P : world -> Prop) img s d cs w u :
  (forall sq q w0 w1, Image_save sq q w0 = (w1, None) -> P w0 -> P w1) ->
  outcome (for_ cs (save_tile img s d) w) = inr u ->
  P w -> P (final (for_ cs (save_tile img s d) w)).
Proof.
  intros Hsave. revert w. induction cs as [|c cs IH]; intros w; simpl; [done|].
  intros Hok Hw. destruct (outcome_bind_inr _ _ _ _ Hok) as ([] & Hc & Hrest).
  rewrite (bind_inr _ _ _ _ Hc). simpl. apply IH; [done|].
  revert Hc. unfold save_tile, call_save, lift_os.
  destruct (Image_save _ _ w) as [w' [e|]] eqn:Hs; simpl; [done|].
  intros _. by eapply Hsave.
Qed.

(** What the script does once the image is open and the edge is not zero. *)
Lemma cut_open v p s d w img :
  Image_open p w = inr img -> s <> 0 ->
  cut v p s d w =
  (let r := (ensure_dir d ;;;
             for_ (grid (number_squares_vertical img s)
                        (number_squares_horizontal img s)) (save_tile img s d) ;;;
             finish v) w in
   Result (EOpen p :: events r) (final r) (outcome r)).
Proof.
  intros Hopen Hs. rewrite cut_eq.
  unfold bind at 1, call_Image_open. rewrite Hopen. simpl.
  unfold floordiv. destruct (Z.eqb_spec s 0) as [|_]; [done|].
  unfold bind at 1 2. simpl.
  unfold number_squares_vertical, number_squares_horizontal. simpl.
  by destruct (bind _ _ w).
Qed.

Lemma finish_run v w :
  finish v w =
  Result (epilogue v)
         (match v with
          | Prompted => w
          | ArgumentDriven =>
              builtin_print "Images successfully applied to folder." w
          end) (inr tt).
Proof. by destruct v. Qed.

(** A call that returns normally opened the image, divided by a non-zero
    edge, found or made the folder, and issued exactly the calls below. *)
Lemma cut_returns v p s d w :
  outcome (cut v p s d w) = inr tt ->
  exists img, Image_open p w = inr img /\ s <> 0 /\ can_ensure d w /\
    events (cut v p s d w) =
      EOpen p :: ensure_events d w ++ tiles img s d ++ epilogue v.
Proof.
  intros Hok.
  destruct (Image_open p w) as [e|img] eqn:Hopen.
  { revert Hok. rewrite cut_eq. unfold bind at 1, call_Image_open.
    by rewrite Hopen. }
  destruct (Z.eq_dec s 0) as [->|Hs].
  { revert Hok. rewrite cut_eq. unfold bind at 1, call_Image_open.
    rewrite Hopen. simpl. by unfold bind, floordiv. }
  exists img. revert Hok. rewrite (cut_open _ _ _ _ _ _ Hopen Hs). cbn [events final outcome].
  intros Hok.
  destruct (outcome_bind_inr _ _ _ _ Hok) as ([] & He & Hok1).
  destruct (outcome_bind_inr _ _ _ _ Hok1) as ([] & Hl & _).
  destruct (ensure_dir_run d w) as (Hev & Hfin & Hcan).
  split_and!; [done..|by apply Hcan|].
  rewrite (bind_inr _ _ _ _ He). cbn [events final outcome].
  rewrite (bind_inr _ _ _ _ Hl). cbn [events final outcome].
  rewrite (for_save_events _ _ _ _ _ _ Hl), finish_run, Hev. simpl.
  done.
Qed.

(** Whatever no successful [save] and no [print] breaks, and holds once the
    folder has been seen to, holds when the call returns. *)
Lemma cut_final_invariant (P : world -> Prop) v p s d w :
  (forall sq q w0 w1, Image_save sq q w0 = (w1, None) -> P w0 -> P w1) ->
  (forall line w0, P w0 -> P (builtin_print line w0)) ->
  outcome (cut v p s d w) = inr tt ->
  P (after_ensure d w) -> P (final (cut v p s d w)).
Proof.
  intros Hsave Hprint Hok Hw.
  destruct (cut_returns _ _ _ _ _ Hok) as (img & Hopen & Hs & _ & _).
  revert Hok. rewrite (cut_open _ _ _ _ _ _ Hopen Hs). cbn [events final outcome]. intros Hok.
  destruct (outcome_bind_inr _ _ _ _ Hok) as ([] & He & Hok1).
  destruct (outcome_bind_inr _ _ _ _ Hok1) as ([] & Hl & _).
  destruct (ensure_dir_run d w) as (_ & Hfin & _).
  rewrite (bind_inr _ _ _ _ He). cbn [events final outcome].
  rewrite (bind_inr _ _ _ _ Hl). cbn [events final outcome].
  rewrite finish_run. simpl.
  assert (P (final (for_ (grid (number_squares_vertical img s)
                               (number_squares_horizontal img s))
                         (save_tile img s d) (final (ensure_dir d w))))) as HP.
  { eapply for_save_invariant; [done|done|]. by rewrite Hfin. }
  destruct v; [done|]. by apply Hprint.
Qed.

(** With no square to save, the call returns as soon as the folder has been
    seen to. *)
Lemma cut_no_tile v p s d w img :
  Image_open p w = inr img -> s <> 0 -> can_ensure d w ->
  grid (number_squares_vertical img s) (number_squares_horizontal img s) = [] ->
  outcome (cut v p s d w) = inr tt /\
  events (cut v p s d w) = EOpen p :: ensure_events d w ++ epilogue v.
Proof.
  intros Hopen Hs Hcan Hgrid.
  rewrite (cut_open _ _ _ _ _ _ Hopen Hs). cbn [events final outcome]. rewrite Hgrid.
  destruct (ensure_dir_run d w) as (Hev & Hfin & Hiff).
  apply Hiff in Hcan.
  rewrite (bind_inr _ _ _ _ Hcan). cbn [events final outcome].
  unfold bind at 1 2. cbn [for_ ret events final outcome].
  rewrite finish_run, Hev. cbn [events final outcome app].
  done.
Qed.

End Runs.

(** ** The grid of coordinates *)

Section Grid.

Lemma elem_of_grid rows columns j i :
  (j, i) ∈ grid rows columns <-> (0 <= j < rows /\ 0 <= i < columns).
Proof.
  unfold grid, range. rewrite list_elem_of_bind. split.
  - intros (j' & Hi & Hj). apply list_elem_of_fmap in Hi as (i' & Heq & Hi).
    apply elem_of_seqZ in Hi, Hj. inversion Heq; subst. lia.
  - intros [Hj Hi]. exists j. split.
    + apply list_elem_of_fmap. exists i. split; [done|]. apply elem_of_seqZ. lia.
    + apply elem_of_seqZ. lia.
Qed.

Lemma NoDup_grid rows columns : NoDup (grid rows columns).
Proof.
  unfold grid, range. apply NoDup_bind.
  - intros j1 j2 [j i] _ _ H1 H2.
    apply list_elem_of_fmap in H1 as (i1 & Heq1 & _).
    apply list_elem_of_fmap in H2 as (i2 & Heq2 & _). congruence.
  - intros j _. apply NoDup_fmap_2; [|apply NoDup_seqZ].
    intros i1 i2. congruence.
  - apply NoDup_seqZ.
Qed.

Lemma grid_snoc (n : nat) columns :
  grid (Z.of_nat (S n)) columns =
  grid (Z.of_nat n) columns ++ ((fun i => (Z.of_nat n, i)) <$> range columns).
Proof.
  unfold grid, range. rewrite seqZ_S, bind_app. simpl.
  by rewrite app_nil_r.
Qed.

Lemma length_grid rows columns :
  length (grid rows columns) = (Z.to_nat rows * Z.to_nat columns)%nat.
Proof.
  destruct (Z.le_gt_cases rows 0) as [Hle|Hgt].
  { unfold grid, range. rewrite (seqZ_nil 0 rows) by done. simpl. lia. }
  rewrite <- (Z2Nat.id rows) at 1 by lia.
  clear Hgt. induction (Z.to_nat rows) as [|n IH].
  { unfold grid, range. by rewrite (seqZ_nil 0 (Z.of_nat 0)). }
  rewrite grid_snoc, length_app, IH, length_fmap.
  unfold range. rewrite length_seqZ. lia.
Qed.

(** The [k]-th coordinate visited is row [k / columns], column
    [k mod columns]. *)
Lemma lookup_grid rows columns (k : nat) :
  Z.of_nat k < rows * columns -> 0 <= rows ->
  grid rows columns !! k = Some (Z.of_nat k / columns, Z.of_nat k mod columns).
Proof.
  intros Hk Hrows. assert (0 < columns) as Hc by nia.
  rewrite <- (Z2Nat.id rows) in Hk |- * by lia.
  induction (Z.to_nat rows) as [|n IH]; [lia|].
  rewrite grid_snoc.
  destruct (Z.lt_ge_cases (Z.of_nat k) (Z.of_nat n * columns)) as [Hlt|Hge].
  - rewrite lookup_app_l; [by apply IH|].
    rewrite length_grid. nia.
  - rewrite lookup_app_r by (rewrite length_grid; nia).
    rewrite length_grid, list_lookup_fmap. unfold range.
    rewrite lookup_seqZ_lt by nia. simpl. f_equal.
    assert (Z.of_nat k = Z.of_nat n * columns +
              Z.of_nat (k - Z.to_nat (Z.of_nat n) * Z.to_nat columns)) as Hdec by nia.
    f_equal.
    + apply (Z.div_unique_pos _ _ _
        (Z.of_nat (k - Z.to_nat (Z.of_nat n) * Z.to_nat columns))); nia.
    + apply (Z.mod_unique_pos _ _ (Z.of_nat n)); nia.
Qed.

End Grid.

(** ** File names *)

Section Names.

Lemma uint_free_of_underscore d : free_of "_" (NilEmpty.string_of_uint d).
Proof. induction d; simpl; (split; [discriminate|done]) || done. Qed.

Lemma str_free_of_underscore n : free_of "_" (str n).
Proof.
  unfold str. destruct (Z.to_int n) as [d|d]; simpl.
  - destruct d; try apply uint_free_of_underscore. simpl. by split.
  - split; [discriminate|].
    destruct d; try apply uint_free_of_underscore. simpl. by split.
Qed.

Lemma str_inj n m : str n = str m -> n = m.
Proof.
  intros Heq. apply DecimalZ.to_int_inj.
  assert (forall z, NilZero.int_of_string (str z) = Some (Z.to_int z)) as Hparse.
  { intros z. unfold str. apply NilZero.isi.
    - destruct z; simpl; [discriminate| |discriminate].
      intros [= Hp]. by apply DecimalPos.Unsigned.to_uint_nonnil in Hp.
    - destruct z; simpl; [discriminate|discriminate|].
      intros [= Hp]. by apply DecimalPos.Unsigned.to_uint_nonnil in Hp. }
  pose proof (Hparse n) as Hn. rewrite Heq, Hparse in Hn. congruence.
Qed.

(** Two strings that agree up to a separator absent from their heads have
    the same head and the same tail. *)
Lemma split_at_separator c a a' r r' :
  free_of c a -> free_of c a' ->
  a +:+ String c r = a' +:+ String c r' -> a = a' /\ r = r'.
Proof.
  revert a'. induction a as [|x a IH]; intros [|x' a']; simpl.
  - intros _ _ [= ->]. done.
  - intros _ [Hx' _] [= <- _]. done.
  - intros [Hx _] _ [= -> _]. done.
  - intros [_ Ha] [_ Ha'] [= -> Heq].
    destruct (IH a' Ha Ha' Heq) as [-> ->]. done.
Qed.

Lemma file_name_inj j i j' i' :
  file_name j i = file_name j' i' -> j = j' /\ i = i'.
Proof.
  unfold file_name. intros Heq. apply String.app_inj in Heq.
  apply split_at_separator in Heq as [Hj Hrest];
    [|apply str_free_of_underscore..].
  split; [by apply str_inj|].
  apply str_inj.
  assert (forall a b, a +:+ ".png" = b +:+ ".png" -> a = b) as Hsuffix.
  { induction a as [|x a IH]; intros [|y b]; simpl; intros Hab.
    - done.
    - exfalso. injection Hab as -> Hab.
      destruct b as [|? [|? [|? [|? ?]]]]; discriminate.
    - exfalso. injection Hab as -> Hab.
      destruct a as [|? [|? [|? [|? ?]]]]; discriminate.
    - injection Hab as -> Hab. f_equal. by apply IH. }
  by apply Hsuffix.
Qed.

Lemma file_name_relative j i : startswith_slash (file_name j i) = false.
Proof. done. Qed.

(** Under one folder, [os.path.join] keeps relative names apart. *)
Lemma os_path_join_inj d n n' :
  startswith_slash n = false -> startswith_slash n' = false ->
  os_path_join d n = os_path_join d n' -> n = n'.
Proof.
  unfold os_path_join. intros -> ->.
  destruct (String.eqb d "" || endswith_slash d); intros Heq.
  - by apply String.app_inj in Heq.
  - apply String.app_inj in Heq. by injection Heq.
Qed.

(** The path of a square lies under the destination folder: it is the
    folder, a ["/"] unless the folder is empty or already ends with one,
    and the file name. *)
Lemma os_path_join_relative d n :
  startswith_slash n = false ->
  os_path_join d n = d +:+ n \/ os_path_join d n = d +:+ "/" +:+ n.
Proof.
  unfold os_path_join. intros ->.
  destruct (String.eqb d "" || endswith_slash d); auto.
Qed.

Lemma tile_path_inj d c c' :
  os_path_join d (file_name (fst c) (snd c)) =
  os_path_join d (file_name (fst c') (snd c')) -> c = c'.
Proof.
  intros Heq. apply os_path_join_inj in Heq; [|apply file_name_relative..].
  apply file_name_inj in Heq as [Hj Hi]. destruct c, c'; simpl in *. congruence.
Qed.

End Names.

(** ** The squares and what a returning call has saved *)

Section Squares.

Lemma number_squares_horizontal_bound img s :
  0 < s ->
  0 <= number_squares_horizontal img s /\
  number_squares_horizontal img s * s <= Z.of_N (width img).
Proof.
  intros Hs. unfold number_squares_horizontal. simpl. split.
  - apply Z.div_pos; lia.
  - rewrite Z.mul_comm. apply Z.mul_div_le. lia.
Qed.

Lemma number_squares_vertical_bound img s :
  0 < s ->
  0 <= number_squares_vertical img s /\
  number_squares_vertical img s * s <= Z.of_N (height img).
Proof.
  intros Hs. unfold number_squares_vertical. simpl. split.
  - apply Z.div_pos; lia.
  - rewrite Z.mul_comm. apply Z.mul_div_le. lia.
Qed.

(** A negative edge leaves both loops without an iteration. *)
Lemma grid_negative_edge img s :
  s < 0 ->
  grid (number_squares_vertical img s) (number_squares_horizontal img s) = [].
Proof.
  intros Hs. unfold grid, range. rewrite (seqZ_nil 0 (number_squares_vertical _ _)); [done|].
  unfold number_squares_vertical. simpl.
  pose proof (Z.div_mod (Z.of_N (height img)) s) as Hdm.
  pose proof (Z.mod_neg_bound (Z.of_N (height img)) s Hs). nia.
Qed.

Lemma size_crop_tile img s j i :
  0 <= s -> size (crop img (tile_box s j i)) = (s, s).
Proof.
  intros Hs. unfold size, tile_box. simpl. f_equal; lia.
Qed.

(** Inside the grid a square shows the source pixels of its box, none of
    them filled in. *)
Lemma pixel_at_crop_tile img s j i x y :
  0 < s ->
  0 <= j < number_squares_vertical img s ->
  0 <= i < number_squares_horizontal img s ->
  0 <= x < s -> 0 <= y < s ->
  pixel_at (crop img (tile_box s j i)) x y =
    Some (pixels img (i * s + x) (j * s + y)) /\
  pixel_at img (i * s + x) (j * s + y) =
    Some (pixels img (i * s + x) (j * s + y)).
Proof.
  intros Hs Hj Hi Hx Hy.
  pose proof (number_squares_horizontal_bound img s Hs) as [_ Hw].
  pose proof (number_squares_vertical_bound img s Hs) as [_ Hh].
  assert (inside img (i * s + x) (j * s + y) = true) as Hin.
  { unfold inside. repeat (apply andb_true_intro; split);
      (apply Z.leb_le || apply Z.ltb_lt); nia. }
  assert (inside (crop img (tile_box s j i)) x y = true) as Hin'.
  { unfold inside, tile_box. simpl. repeat (apply andb_true_intro; split);
      (apply Z.leb_le || apply Z.ltb_lt); lia. }
  unfold pixel_at. rewrite Hin, Hin'. unfold tile_box. simpl. by rewrite Hin.
Qed.

Lemma saves_app t1 t2 : saves (t1 ++ t2) = saves t1 ++ saves t2.
Proof. apply omap_app. Qed.

Lemma made_dirs_app t1 t2 : made_dirs (t1 ++ t2) = made_dirs t1 ++ made_dirs t2.
Proof. apply omap_app. Qed.

Lemma saves_tiles img s d cs :
  saves (tile img s d <$> cs) = tile_file img s d <$> cs.
Proof. induction cs as [|c cs IH]; [done|]. cbn. by rewrite <- IH. Qed.

Lemma saves_epilogue v : saves (epilogue v) = [].
Proof. by destruct v. Qed.

Lemma saves_ensure_events {H : Host} d w : saves (ensure_events d w) = [].
Proof. unfold ensure_events. by destruct (os_path_exists d w). Qed.

Lemma made_dirs_tiles img s d cs : made_dirs (tile img s d <$> cs) = [].
Proof. induction cs as [|c cs IH]; simpl; done. Qed.

(** The files of a returning call, in the order they were written. *)
Lemma saves_cut {H : Host} v p s d w img :
  outcome (cut v p s d w) = inr tt -> Image_open p w = inr img ->
  saves (events (cut v p s d w)) =
    tile_file img s d <$>
      grid (number_squares_vertical img s) (number_squares_horizontal img s).
Proof.
  intros Hok Hopen.
  destruct (cut_returns _ _ _ _ _ Hok) as (img' & Hopen' & _ & _ & ->).
  assert (img' = img) as -> by congruence.
  change (EOpen p :: ?t) with ([EOpen p] ++ t).
  rewrite !saves_app, saves_ensure_events, saves_epilogue. unfold tiles.
  rewrite saves_tiles. simpl. by rewrite app_nil_r.
Qed.

End Squares.

(** ** The reference host is well behaved *)

Lemma ref_save_dirs img q w w' :
  Ref.save img q w = (w', None) ->
  Ref.dirs w' = Ref.dirs w /\ Ref.files w' = <[q := Ref.PngFile img]> (Ref.files w).
Proof.
  unfold Ref.save. destruct (Ref.isdir q w); [done|].
  destruct (Ref.through_file q w); [done|]. by intros [= <-].
Qed.

#[export] Instance ref_laws : HostLaws Ref.host.
Proof.
  split; simpl.
  - intros p w. unfold Ref.isdir, Ref.exists_. by intros ->.
  - intros p w w'. unfold Ref.makedirs.
    destruct (String.eqb p ""); [done|]. destruct (Ref.exists_ p w); [done|].
    destruct (Ref.through_file p w); [done|]. intros [= <-]. unfold Ref.isdir. simpl. apply bool_decide_eq_true. set_solver.
  - intros img q p w w' Hs. apply ref_save_dirs in Hs as [Hd _].
    unfold Ref.isdir. by rewrite Hd.
  - intros img q p w w' Hs. apply ref_save_dirs in Hs as [Hd Hf].
    unfold Ref.exists_. rewrite Hd, Hf.
    intros [Hdir|Hfile]%orb_true_iff; apply orb_true_iff; [by left|right].
    apply bool_decide_eq_true. apply bool_decide_eq_true in Hfile.
    destruct (decide (q = p)) as [->|Hne].
    + rewrite lookup_insert_eq. eauto.
    + by rewrite lookup_insert_ne.
  - done.
  - done.
Qed.

(** ** The claims *)

Section Claims.
Context {H : Host}.

(** C1 (as the scripts behave).  Neither script validates the edge.  With
    [square_size = 0] the call raises [ZeroDivisionError] right after the
    image is opened: no directory has been asked for, no file written.
    With [square_size < 0] nothing is rejected: the folder is looked up and
    created when absent, both loops are empty, no file is written and the
    call returns (after its message, for the argument-driven script). *)
Theorem square_size_not_validated v p s d w img :
  Image_open p w = inr img -> s <= 0 ->
  (s = 0 ->
     cut v p s d w = Result [EOpen p] w (inl ZeroDivisionError) /\
     rejects_before_io (cut v p s d w)) /\
  (s < 0 -> can_ensure d w ->
     outcome (cut v p s d w) = inr tt /\
     events (cut v p s d w) = EOpen p :: ensure_events d w ++ epilogue v /\
     saves (events (cut v p s d w)) = [] /\
     made_dirs (events (cut v p s d w)) =
       (if os_path_exists d w then [] else [d])).
Proof.
  intros Hopen Hle. split.
  - intros ->.
    assert (cut v p 0 d w = Result [EOpen p] w (inl ZeroDivisionError)) as Heq.
    { rewrite cut_eq. unfold bind at 1, call_Image_open. by rewrite Hopen. }
    split; [done|]. rewrite Heq. split; [by eexists|done].
  - intros Hneg Hcan.
    destruct (cut_no_tile v p s d w img) as [Hok Hev];
      [done|lia|done|by apply grid_negative_edge|].
    split_and!; [done|done|..]; rewrite Hev.
    + change (EOpen p :: ?t) with ([EOpen p] ++ t).
      by rewrite !saves_app, saves_ensure_events, saves_epilogue.
    + unfold ensure_events. destruct (os_path_exists d w), v; done.
Qed.

End Claims.

(** C1, witness: a negative edge on the reference host. *)
Lemma square_size_not_validated_witness :
  outcome (cut (H:=Ref.host) ArgumentDriven "img.png" (-1) "out" Ref.disk) = inr tt /\
  made_dirs (events (cut (H:=Ref.host) ArgumentDriven "img.png" (-1) "out" Ref.disk))
    = ["out"].
Proof.
  destruct (square_size_not_validated (H:=Ref.host) ArgumentDriven
              "img.png" (-1) "out" Ref.disk Ref.sample) as [_ Hneg];
    [reflexivity|lia|].
  destruct Hneg as (Hok & _ & _ & Hdirs); [lia|right; reflexivity|].
  split; [exact Hok|exact Hdirs].
Defined.

(** C1, as stated, fails: with edge [-1] the call is not rejected; it
    creates the folder and returns. *)
Lemma negative_square_size_accepted :
  -1 <= 0 /\
  ~ rejects_before_io (cut (H:=Ref.host) Prompted "img.png" (-1) "out" Ref.disk).
Proof.
  split; [lia|]. intros [[e He] _]. vm_compute in He. discriminate.
Qed.

Section TileClaims.
Context {H : Host}.

(** C2.  A call that returns, with a positive edge [s] on an image of
    [w] by [h] pixels, has written exactly [(w / s) * (h / s)] files
    (floor division) under pairwise distinct paths, and every raster
    written is [s] by [s]. *)
Theorem tile_count_and_size v p s d w img :
  Image_open p w = inr img -> 0 < s ->
  outcome (cut v p s d w) = inr tt ->
  Z.of_nat (length (saves (events (cut v p s d w)))) =
    (Z.of_N (width img) / s) * (Z.of_N (height img) / s) /\
  NoDup ((saves (events (cut v p s d w))).*1) /\
  Forall (fun f => size f.2 = (s, s)) (saves (events (cut v p s d w))).
Proof.
  intros Hopen Hs Hok. rewrite (saves_cut _ _ _ _ _ _ Hok Hopen).
  pose proof (number_squares_horizontal_bound img s Hs) as [Hnh _].
  pose proof (number_squares_vertical_bound img s Hs) as [Hnv _].
  split_and!.
  - rewrite length_fmap, length_grid.
    unfold number_squares_horizontal, number_squares_vertical in *.
    simpl in *. lia.
  - rewrite <- list_fmap_compose.
    apply NoDup_fmap_2_strong; [|apply NoDup_grid].
    intros c c' _ _ Heq. by apply (tile_path_inj d).
  - apply Forall_fmap, Forall_forall. intros c _. simpl.
    apply size_crop_tile. lia.
Qed.

(** C3.  For a positive edge and a coordinate [(row, col)] inside the
    grid, a call that returns has written exactly one raster to the path
    of that coordinate; it is [s] by [s] and its pixel [(x, y)] is the
    source's pixel [(col * s + x, row * s + y)], which the source has. *)
Theorem tile_content v p s d w img row col :
  Image_open p w = inr img -> 0 < s ->
  outcome (cut v p s d w) = inr tt ->
  0 <= row < number_squares_vertical img s ->
  0 <= col < number_squares_horizontal img s ->
  exists square,
    (os_path_join d (file_name row col), square)
      ∈ saves (events (cut v p s d w)) /\
    (forall other, (os_path_join d (file_name row col), other)
                     ∈ saves (events (cut v p s d w)) -> other = square) /\
    size square = (s, s) /\
    forall x y, 0 <= x < s -> 0 <= y < s ->
      pixel_at square x y = pixel_at img (col * s + x) (row * s + y) /\
      is_Some (pixel_at square x y).
Proof.
  intros Hopen Hs Hok Hrow Hcol. rewrite (saves_cut _ _ _ _ _ _ Hok Hopen).
  exists (crop img (tile_box s row col)). split_and!.
  - apply list_elem_of_fmap. exists (row, col). split; [done|].
    by apply elem_of_grid.
  - intros other Hin. apply list_elem_of_fmap in Hin as (c & Heq & _).
    unfold tile_file in Heq. injection Heq as Hpath ->.
    change row with (fst (row, col)) in Hpath at 1.
    change col with (snd (row, col)) in Hpath at 2.
    by apply tile_path_inj in Hpath as <-.
  - apply size_crop_tile. lia.
  - intros x y Hx Hy.
    destruct (pixel_at_crop_tile img s row col x y) as [Hsq Hsrc]; [done..|].
    rewrite Hsq, Hsrc. eauto.
Qed.

(** C4.  For a positive edge, the rasters a returning call writes are the
    crops of the boxes of the grid coordinates; a tile pixel [(x, y)] is
    the source pixel at the same offset in its box; two grid coordinates
    whose boxes share a source pixel are equal; every box lies within
    [[0, columns * s) x [0, rows * s)], so a pixel of a trailing partial
    row or column is in no box. *)
Theorem tiles_disjoint_within_cover v p s d w img :
  Image_open p w = inr img -> 0 < s ->
  outcome (cut v p s d w) = inr tt ->
  let rows := number_squares_vertical img s in
  let columns := number_squares_horizontal img s in
  (saves (events (cut v p s d w))).*2 =
    (fun c => crop img (tile_box s c.1 c.2)) <$> grid rows columns /\
  (forall c x y, c ∈ grid rows columns -> 0 <= x < s -> 0 <= y < s ->
     in_box (tile_box s c.1 c.2) (c.2 * s + x) (c.1 * s + y) /\
     pixel_at (crop img (tile_box s c.1 c.2)) x y =
       pixel_at img (c.2 * s + x) (c.1 * s + y)) /\
  (forall c c' x y, c ∈ grid rows columns -> c' ∈ grid rows columns ->
     in_box (tile_box s c.1 c.2) x y -> in_box (tile_box s c'.1 c'.2) x y ->
     c = c') /\
  (forall c x y, c ∈ grid rows columns -> in_box (tile_box s c.1 c.2) x y ->
     0 <= x < columns * s /\ 0 <= y < rows * s) /\
  (forall c x y, c ∈ grid rows columns ->
     columns * s <= x \/ rows * s <= y -> ~ in_box (tile_box s c.1 c.2) x y).
Proof.
  intros Hopen Hs Hok rows columns.
  rewrite (saves_cut _ _ _ _ _ _ Hok Hopen).
  assert (forall c x y, c ∈ grid rows columns -> in_box (tile_box s c.1 c.2) x y ->
            0 <= x < columns * s /\ 0 <= y < rows * s) as Hcover.
  { intros [j i] x y [Hj Hi]%elem_of_grid. unfold in_box, tile_box. simpl. nia. }
  split_and!.
  - by rewrite <- list_fmap_compose.
  - intros [j i] x y [Hj Hi]%elem_of_grid Hx Hy. cbn [fst snd]. split.
    + unfold in_box, tile_box. lia.
    + destruct (pixel_at_crop_tile img s j i x y) as [Hsq Hsrc]; [done..|].
      by rewrite Hsq, Hsrc.
  - intros [j i] [j' i'] x y _ _. unfold in_box, tile_box. simpl.
    intros [Hx Hy] [Hx' Hy'].
    assert (i = i') as -> by nia. assert (j = j') as -> by nia. done.
  - done.
  - intros c x y Hc Hout Hin. destruct (Hcover c x y Hc Hin). lia.
Qed.

End TileClaims.

Section NamingClaims.
Context {H : Host}.

(** C5.  The paths a returning call writes are, in order, the join of the
    destination folder with ["square_" row "_" col ".png"] (row first,
    indices printed by [str]) for the grid coordinates; such a path is the
    folder followed by the name, with a ["/"] in between when needed; and
    distinct coordinates give distinct paths, so no path is written
    twice. *)
Theorem tile_file_names v p s d w img :
  Image_open p w = inr img ->
  outcome (cut v p s d w) = inr tt ->
  (saves (events (cut v p s d w))).*1 =
    (fun c => os_path_join d ("square_" +:+ str c.1 +:+ "_" +:+ str c.2 +:+ ".png"))
      <$> grid (number_squares_vertical img s) (number_squares_horizontal img s) /\
  (forall j i,
     let name := "square_" +:+ str j +:+ "_" +:+ str i +:+ ".png" in
     os_path_join d name = d +:+ name \/ os_path_join d name = d +:+ "/" +:+ name) /\
  (forall j i j' i',
     os_path_join d (file_name j i) = os_path_join d (file_name j' i') ->
     j = j' /\ i = i') /\
  NoDup ((saves (events (cut v p s d w))).*1).
Proof.
  intros Hopen Hok. rewrite (saves_cut _ _ _ _ _ _ Hok Hopen).
  rewrite <- list_fmap_compose. split_and!.
  - done.
  - intros j i name. by apply os_path_join_relative.
  - intros j i j' i' Heq.
    apply (tile_path_inj d (j, i) (j', i')) in Heq. by injection Heq.
  - apply NoDup_fmap_2_strong; [|apply NoDup_grid].
    intros c c' _ _ Heq. by apply (tile_path_inj d).
Qed.

(** C6.  The files of a returning call are written row by row: the list
    of writes is the one obtained by letting the row run over
    [0 .. rows-1] and, inside, the column over [0 .. columns-1]; so there
    are [rows * columns] writes and the [k]-th one (from 0) is the square
    of row [k / columns], column [k mod columns]. *)
Theorem row_major_order v p s d w img :
  Image_open p w = inr img ->
  outcome (cut v p s d w) = inr tt ->
  let rows := number_squares_vertical img s in
  let columns := number_squares_horizontal img s in
  saves (events (cut v p s d w)) =
    (range rows ≫= fun j => (fun i => tile_file img s d (j, i)) <$> range columns) /\
  length (saves (events (cut v p s d w))) = (Z.to_nat rows * Z.to_nat columns)%nat /\
  forall k : nat, (k < Z.to_nat rows * Z.to_nat columns)%nat ->
    saves (events (cut v p s d w)) !! k =
      Some (tile_file img s d (Z.of_nat k / columns, Z.of_nat k mod columns)).
Proof.
  intros Hopen Hok rows columns. rewrite (saves_cut _ _ _ _ _ _ Hok Hopen).
  fold rows columns. split_and!.
  - unfold grid. generalize (range rows) as js. induction js as [|j js IH]; [done|].
    rewrite !bind_cons, fmap_app, IH. f_equal. by rewrite <- list_fmap_compose.
  - by rewrite length_fmap, length_grid.
  - intros k Hk. rewrite list_lookup_fmap, lookup_grid; [done|nia|nia].
Qed.

End NamingClaims.

Section BoundaryClaims.
Context {H : Host}.

Lemma grid_empty rows columns : rows <= 0 \/ columns <= 0 -> grid rows columns = [].
Proof.
  intros Hz. apply nil_length_inv. rewrite length_grid. lia.
Qed.

(** C7.  When the image is narrower or lower than the edge, the call
    writes nothing and the tiling itself raises nothing: the call returns
    as soon as the folder is there or can be made, and the one exception it
    can end with is the [OSError] of a failing [os.makedirs].  An edge equal
    to the width gives one column: number_squares_horizontal is 1 and the
    writes are those of column 0, one per row; likewise an edge equal to
    the height gives one row. *)
Theorem small_image_and_exact_fit v p s d w img :
  Image_open p w = inr img ->
  (Z.of_N (width img) < s \/ Z.of_N (height img) < s ->
   saves (events (cut v p s d w)) = [] /\
   (can_ensure d w -> outcome (cut v p s d w) = inr tt) /\
   (forall e, outcome (cut v p s d w) = inl e ->
      os_path_exists d w = false /\
      exists oe, e = OSError oe /\ snd (os_makedirs d w) = Some oe)) /\
  (s = Z.of_N (width img) -> 0 < s ->
   number_squares_horizontal img s = 1 /\
   (outcome (cut v p s d w) = inr tt ->
    saves (events (cut v p s d w)) =
      (fun j => tile_file img s d (j, 0)) <$> range (number_squares_vertical img s))) /\
  (s = Z.of_N (height img) -> 0 < s ->
   number_squares_vertical img s = 1 /\
   (outcome (cut v p s d w) = inr tt ->
    saves (events (cut v p s d w)) =
      (fun i => tile_file img s d (0, i)) <$> range (number_squares_horizontal img s))).
Proof.
  intros Hopen. split_and!.
  - intros Hsmall.
    assert (grid (number_squares_vertical img s)
                 (number_squares_horizontal img s) = []) as Hgrid.
    { apply grid_empty.
      unfold number_squares_vertical, number_squares_horizontal. simpl.
      destruct Hsmall; [right|left]; rewrite Z.div_small; lia. }
    assert (s <> 0) as Hs by lia.
    destruct (outcome (ensure_dir d w)) as [e0|[]] eqn:He.
    + assert (cut v p s d w =
                Result (EOpen p :: events (ensure_dir d w))
                       (final (ensure_dir d w)) (inl e0)) as Hcut.
      { rewrite (cut_open _ _ _ _ _ _ Hopen Hs). cbn zeta.
        by rewrite (bind_inl _ _ _ _ He). }
      destruct (ensure_dir_run d w) as (Hev & _ & Hiff).
      rewrite Hcut. cbn [events outcome]. split_and!.
      * rewrite Hev. change (EOpen p :: ?t) with ([EOpen p] ++ t).
        by rewrite saves_app, saves_ensure_events.
      * intros Hcan%Hiff. congruence.
      * intros e [= <-]. by apply ensure_dir_raises.
    + destruct (ensure_dir_run d w) as (_ & _ & Hiff).
      destruct (cut_no_tile v p s d w img) as [Hok Hev];
        [done|done|by apply Hiff|done|].
      split_and!.
      * rewrite (saves_cut _ _ _ _ _ _ Hok Hopen). by rewrite Hgrid.
      * done.
      * intros e. by rewrite Hok.
  - intros Hw Hs.
    assert (number_squares_horizontal img s = 1) as Hone.
    { unfold number_squares_horizontal. simpl. rewrite <- Hw. apply Z.div_same. lia. }
    split; [done|]. intros Hok. rewrite (saves_cut _ _ _ _ _ _ Hok Hopen), Hone.
    unfold grid. generalize (range (number_squares_vertical img s)) as js.
    induction js as [|j js IH]; [done|].
    rewrite bind_cons, !fmap_cons, <- IH. done.
  - intros Hh Hs.
    assert (number_squares_vertical img s = 1) as Hone.
    { unfold number_squares_vertical. simpl. rewrite <- Hh. apply Z.div_same. lia. }
    split; [done|]. intros Hok. rewrite (saves_cut _ _ _ _ _ _ Hok Hopen), Hone.
    unfold grid. change (range 1) with [0]. rewrite bind_singleton.
    by rewrite <- list_fmap_compose.
Qed.

(** With four entries in [sys.argv], [main] parses the edge and calls
    [cut_image_into_squares]. *)
Lemma main_four a0 a1 a2 a3 w :
  CropImage.main [a0; a1; a2; a3] w =
  match builtin_int a2 with
  | Some n => cut ArgumentDriven a1 n a3 w
  | None => Result [] w (inl ValueError)
  end.
Proof.
  unfold CropImage.main, call_int. cbn [length Nat.eqb negb getitem nth_error].
  rewrite !bind_ret_l. destruct (builtin_int a2) as [n|].
  - by rewrite !bind_ret_l.
  - done.
Qed.

(** C8.  [main] on an argument vector whose length is not 4 (the script
    name and three arguments) prints the usage line and exits with status
    1, having made no other call; and a run of [main] that returns ends
    with the line ["Images successfully applied to folder."]. *)
Theorem main_usage_and_success argv w :
  (length argv <> 4%nat ->
   CropImage.main argv w =
     Result [EPrint "Usage: script.py <image_path> <square_size> <destination_folder>"]
            (builtin_print
               "Usage: script.py <image_path> <square_size> <destination_folder>" w)
            (inl (SystemExit 1)) /\
   exit_status (outcome (CropImage.main argv w)) = 1) /\
  (outcome (CropImage.main argv w) = inr tt ->
   exists t, events (CropImage.main argv w) =
               t ++ [EPrint "Images successfully applied to folder."]).
Proof.
  split.
  - intros Hlen. unfold CropImage.main.
    destruct (Nat.eqb_spec (length argv) 4) as [|_]; [done|]. simpl.
    by unfold bind; simpl.
  - destruct (Nat.eqb_spec (length argv) 4) as [Hlen|Hlen].
    + destruct argv as [|a0 [|a1 [|a2 [|a3 [|]]]]]; try done. clear Hlen.
      rewrite main_four.
      destruct (builtin_int a2) as [n|]; [|done]. intros Hok.
      destruct (cut_returns ArgumentDriven _ _ _ _ Hok) as (img & _ & _ & _ & ->).
      exists (EOpen a1 :: ensure_events a3 w ++ tiles img n a3).
      simpl. by rewrite <- !app_assoc.
    + unfold CropImage.main.
      destruct (Nat.eqb_spec (length argv) 4) as [|_]; [done|].
      by unfold bind; simpl.
Qed.

(** C9.  Two calls on the same image, edge and folder that both return
    (in particular a second call made after the first, as long as the
    source image still opens as the same raster) write the same files:
    same paths, same rasters, in the same order. *)
Theorem same_files_on_rerun v p s d w w' img :
  Image_open p w = inr img -> Image_open p w' = inr img ->
  outcome (cut v p s d w) = inr tt ->
  outcome (cut v p s d w') = inr tt ->
  saves (events (cut v p s d w)) = saves (events (cut v p s d w')).
Proof.
  intros Hopen Hopen' Hok Hok'.
  by rewrite (saves_cut _ _ _ _ _ _ Hok Hopen), (saves_cut _ _ _ _ _ _ Hok' Hopen').
Qed.

(** C10 (as the scripts behave).  In a call that returns, [os.makedirs] is
    called exactly when [os.path.exists] answered no, and before every
    [save]; on a host that obeys [HostLaws] the destination path then
    exists, and it is a directory whenever it was absent or already a
    directory before the call. *)
Theorem destination_after_success `{!HostLaws H} v p s d w :
  outcome (cut v p s d w) = inr tt ->
  made_dirs (events (cut v p s d w)) = (if os_path_exists d w then [] else [d]) /\
  (exists img, events (cut v p s d w) =
     EOpen p :: ensure_events d w ++ tiles img s d ++ epilogue v) /\
  os_path_exists d (final (cut v p s d w)) = true /\
  (os_path_exists d w = false \/ os_path_isdir d w = true ->
   os_path_isdir d (final (cut v p s d w)) = true).
Proof.
  intros Hok.
  destruct (cut_returns _ _ _ _ _ Hok) as (img & Hopen & Hs & Hcan & Hev).
  assert (os_path_exists d w = false -> os_path_isdir d (after_ensure d w) = true)
    as Hmade.
  { intros Habsent. unfold after_ensure. rewrite Habsent.
    destruct Hcan as [Hex|Hmk]; [congruence|].
    destruct (os_makedirs d w) as [w1 o] eqn:Hm. simpl in *. subst o.
    by eapply makedirs_isdir. }
  split_and!.
  - rewrite Hev. change (EOpen p :: ?t) with ([EOpen p] ++ t).
    rewrite !made_dirs_app. unfold tiles. rewrite made_dirs_tiles.
    unfold ensure_events. destruct (os_path_exists d w), v; done.
  - by exists img.
  - apply (cut_final_invariant (fun w0 => os_path_exists d w0 = true)); [| |done|].
    + intros sq q w0 w1 Hsave. by apply save_exists with sq q.
    + intros line w0. by rewrite print_exists.
    + destruct (os_path_exists d w) eqn:Hex.
      * unfold after_ensure. by rewrite Hex.
      * apply isdir_exists. by apply Hmade.
  - intros Hpre.
    apply (cut_final_invariant (fun w0 => os_path_isdir d w0 = true)); [| |done|].
    + intros sq q w0 w1 Hsave. by apply save_isdir with sq q.
    + intros line w0. by rewrite print_isdir.
    + destruct (os_path_exists d w) eqn:Hex.
      * unfold after_ensure. rewrite Hex. by destruct Hpre.
      * by apply Hmade.
Qed.

End BoundaryClaims.

(** ** The claims on the reference host

    [Ref.disk] holds the 5 by 3 image [Ref.sample] as ["img.png"]; with
    edge 2 the grid has one row and two columns. *)

(** C2, witness. *)
Lemma tile_count_and_size_witness :
  Z.of_nat (length (saves (events
    (cut (H:=Ref.host) Prompted "img.png" 2 "out" Ref.disk)))) = 2.
Proof.
  destruct (tile_count_and_size (H:=Ref.host) Prompted "img.png" 2 "out"
              Ref.disk Ref.sample) as (Hn & _ & _);
    [reflexivity|lia|reflexivity|].
  exact Hn.
Defined.

(** C3, witness: the square of row 0, column 1 shows the source from
    column 2 on. *)
Lemma tile_content_witness :
  exists square,
    (("out/square_0_1.png" : string), square)
      ∈ saves (events (cut (H:=Ref.host) Prompted "img.png" 2 "out" Ref.disk)) /\
    pixel_at square 1 1 = pixel_at Ref.sample 3 1.
Proof.
  destruct (tile_content (H:=Ref.host) Prompted "img.png" 2 "out"
              Ref.disk Ref.sample 0 1) as (sq & Hin & _ & _ & Hpx);
    [reflexivity|lia|reflexivity|vm_compute; split; congruence
    |vm_compute; split; congruence|].
  exists sq. split; [exact Hin|].
  destruct (Hpx 1 1) as [Heq _]; [lia|lia|]. exact Heq.
Defined.

(** C4, witness: the source pixel (2, 1) is in the box of column 1 and
    not in the box of column 0; the pixel (4, 1) of the trailing column is
    in neither. *)
Lemma tiles_disjoint_within_cover_witness :
  in_box (tile_box 2 0 1) 2 1 /\
  ~ in_box (tile_box 2 0 0) 2 1 /\
  ~ in_box (tile_box 2 0 1) 4 1.
Proof.
  destruct (tiles_disjoint_within_cover (H:=Ref.host) Prompted "img.png" 2 "out"
              Ref.disk Ref.sample) as (_ & _ & Hdisj & _ & Hout);
    [reflexivity|lia|reflexivity|].
  assert (forall j i, 0 <= j < 1 -> 0 <= i < 2 ->
            (j, i) ∈ grid (number_squares_vertical Ref.sample 2)
                          (number_squares_horizontal Ref.sample 2)) as Hgrid.
  { intros j i Hj Hi. apply elem_of_grid. vm_compute. vm_compute in Hj, Hi.
    exact (conj Hj Hi). }
  assert (in_box (tile_box 2 0 1) 2 1) as Hin by (vm_compute; repeat split; congruence).
  split; [exact Hin|]. split.
  - intros H0.
    assert ((0, 0) = (0, 1)) as Heq; [|discriminate Heq].
    apply (Hdisj (0, 0) (0, 1) 2 1); [apply Hgrid; lia|apply Hgrid; lia|exact H0|exact Hin].
  - apply (Hout (0, 1) 4 1); [apply Hgrid; lia|]. left. vm_compute. congruence.
Defined.

(** C5, witness. *)
Lemma tile_file_names_witness :
  (saves (events (cut (H:=Ref.host) Prompted "img.png" 2 "out" Ref.disk))).*1 =
    ["out/square_0_0.png"; "out/square_0_1.png"]%string.
Proof.
  destruct (tile_file_names (H:=Ref.host) Prompted "img.png" 2 "out"
              Ref.disk Ref.sample) as (Hnames & _);
    [reflexivity|reflexivity|].
  rewrite Hnames. reflexivity.
Defined.

(** C6, witness: the second write is row 0, column 1. *)
Lemma row_major_order_witness :
  saves (events (cut (H:=Ref.host) Prompted "img.png" 2 "out" Ref.disk)) !! 1%nat =
    Some (tile_file Ref.sample 2 "out" (0, 1)).
Proof.
  destruct (row_major_order (H:=Ref.host) Prompted "img.png" 2 "out"
              Ref.disk Ref.sample) as (_ & _ & Hk);
    [reflexivity|reflexivity|].
  apply (Hk 1%nat). vm_compute. lia.
Defined.

(** C7, witness: an edge of 9 on the 5 by 3 image. *)
Lemma small_image_and_exact_fit_witness :
  outcome (cut (H:=Ref.host) ArgumentDriven "img.png" 9 "out" Ref.disk) = inr tt /\
  saves (events (cut (H:=Ref.host) ArgumentDriven "img.png" 9 "out" Ref.disk)) = [] /\
  number_squares_horizontal Ref.sample 5 = 1.
Proof.
  destruct (small_image_and_exact_fit (H:=Ref.host) ArgumentDriven "img.png" 9
              "out" Ref.disk Ref.sample) as (Hsmall & _ & _); [reflexivity|].
  destruct (small_image_and_exact_fit (H:=Ref.host) ArgumentDriven "img.png" 5
              "out" Ref.disk Ref.sample) as (_ & Hfit & _); [reflexivity|].
  destruct Hsmall as (Hnone & Hok & _); [left; vm_compute; reflexivity|].
  destruct Hfit as [Hone _]; [reflexivity|lia|].
  split; [apply Hok; right; reflexivity|]. split; [exact Hnone|exact Hone].
Defined.

(** C8, witness: one argument too few, and a full run. *)
Lemma main_usage_and_success_witness :
  exit_status (outcome (CropImage.main (H:=Ref.host) ["crop_image.py"; "img.png"; "2"]
                 Ref.disk)) = 1 /\
  exists t, events (CropImage.main (H:=Ref.host)
                      ["crop_image.py"; "img.png"; "2"; "out"] Ref.disk) =
            t ++ [EPrint "Images successfully applied to folder."].
Proof.
  destruct (main_usage_and_success (H:=Ref.host) ["crop_image.py"; "img.png"; "2"]
              Ref.disk) as [Husage _].
  destruct (main_usage_and_success (H:=Ref.host)
              ["crop_image.py"; "img.png"; "2"; "out"] Ref.disk) as [_ Hdone].
  split.
  - destruct Husage as [_ Hstatus]; [simpl; lia|]. exact Hstatus.
  - apply Hdone. reflexivity.
Defined.

(** C9, witness: the second call starts where the first one ended. *)
Lemma same_files_on_rerun_witness :
  let once := cut (H:=Ref.host) Prompted "img.png" 2 "out" Ref.disk in
  let twice := cut (H:=Ref.host) Prompted "img.png" 2 "out" (final once) in
  saves (events once) = saves (events twice).
Proof.
  intros once twice.
  apply (same_files_on_rerun (H:=Ref.host) Prompted "img.png" 2 "out"
           Ref.disk (final once) Ref.sample); reflexivity.
Defined.

(** C10, witness: the folder ["out"] is made and is a directory at the
    end, also when no square fits. *)
Lemma destination_after_success_witness :
  made_dirs (events (cut (H:=Ref.host) Prompted "img.png" 9 "out" Ref.disk)) = ["out"] /\
  os_path_isdir (Host:=Ref.host) "out"
    (final (cut (H:=Ref.host) Prompted "img.png" 9 "out" Ref.disk)) = true.
Proof.
  destruct (destination_after_success (H:=Ref.host) Prompted "img.png" 9 "out"
              Ref.disk) as (Hmade & _ & _ & Hdir); [reflexivity|].
  split; [exact Hmade|]. apply Hdir. left. reflexivity.
Defined.

(** C10, as stated, fails: when the destination path already names a
    regular file and no square fits, the call returns and the path is still
    not a directory. *)
Lemma destination_may_stay_a_file :
  ~ leaves_directory (H:=Ref.host)
      (cut (H:=Ref.host) Prompted "img.png" 9 "img.png" Ref.disk) "img.png".
Proof.
  intros Hdir. specialize (Hdir eq_refl). vm_compute in Hdir. discriminate.
Qed.

(** ** Every run, returning or not *)

Section AllRuns.
Context {H : Host}.

(** However the loop ends, the [save] calls it has made are the first [k]
    of the list, in order; it ends normally after all of them, and
    otherwise with the [OSError] of the last one made. *)
Lemma for_save_prefix img s d cs w :
  exists k : nat,
    (k <= length cs)%nat /\
    events (for_ cs (save_tile img s d) w) = tile img s d <$> take k cs /\
    match outcome (for_ cs (save_tile img s d) w) with
    | inr _ => k = length cs
    | inl e => (0 < k)%nat /\ exists oe, e = OSError oe
    end.
Proof.
  revert w. induction cs as [|c cs IH]; intros w.
  { exists 0%nat. by split_and!. }
  cbn [for_].
  destruct (outcome (save_tile img s d c w)) as [e|[]] eqn:Hc.
  - exists 1%nat. rewrite (bind_inl _ _ _ _ Hc). cbn [events outcome length].
    revert Hc. unfold save_tile, call_save, lift_os, tile.
    destruct (Image_save _ _ w) as [w' [oe|]]; cbn [outcome events]; [|done].
    intros [= <-]. split_and!; [lia|done|lia|by exists oe].
  - destruct (IH (final (save_tile img s d c w))) as (k & Hk & Hev & Hout).
    exists (S k). rewrite (bind_inr _ _ _ _ Hc). cbn [events outcome length].
    rewrite Hev. split_and!; [lia| |].
    + revert Hc. unfold save_tile, call_save, lift_os, tile.
      by destruct (Image_save _ _ w) as [w' [oe|]].
    + destruct (outcome (for_ cs _ _)); [|lia].
      destruct Hout as [? ?]. split; [lia|done].
Qed.

(** The three ways a call goes once the image is open and the edge is not
    zero: it returns; [os.makedirs] fails; a [save] fails. *)
Lemma cut_cases v p s d w img :
  Image_open p w = inr img -> s <> 0 ->
  (outcome (cut v p s d w) = inr tt /\
   events (cut v p s d w) =
     EOpen p :: ensure_events d w ++ tiles img s d ++ epilogue v) \/
  (exists oe, outcome (cut v p s d w) = inl (OSError oe) /\
     os_path_exists d w = false /\ snd (os_makedirs d w) = Some oe /\
     events (cut v p s d w) = EOpen p :: ensure_events d w) \/
  (exists oe (k : nat), outcome (cut v p s d w) = inl (OSError oe) /\
     can_ensure d w /\ (0 < k <= length (tiles img s d))%nat /\
     events (cut v p s d w) =
       EOpen p :: ensure_events d w ++ take k (tiles img s d)).
Proof.
  intros Hopen Hs.
  destruct (outcome (cut v p s d w)) as [e|[]] eqn:Hout.
  - right. revert Hout. rewrite (cut_open _ _ _ _ _ _ Hopen Hs).
    cbn [events outcome].
    destruct (ensure_dir_run d w) as (Hev & _ & Hiff).
    destruct (outcome (ensure_dir d w)) as [e0|[]] eqn:He.
    + rewrite (bind_inl _ _ _ _ He). cbn [events outcome]. intros [= <-].
      apply ensure_dir_raises in He as (Habs & oe & -> & Hmk).
      left. exists oe. by rewrite Hev.
    + rewrite (bind_inr _ _ _ _ He). cbn [events outcome].
      destruct (for_save_prefix img s d
                  (grid (number_squares_vertical img s)
                        (number_squares_horizontal img s))
                  (final (ensure_dir d w))) as (k & Hk & Hevl & Hol).
      destruct (outcome (for_ _ _ (final (ensure_dir d w)))) as [e1|[]] eqn:Hl.
      * rewrite (bind_inl _ _ _ _ Hl). cbn [events outcome]. intros [= <-].
        destruct Hol as (Hpos & oe & ->). right. exists oe, k.
        split_and!; [done|by apply Hiff|lia| |].
        -- unfold tiles. rewrite length_fmap. lia.
        -- rewrite Hev, Hevl. unfold tiles. by rewrite fmap_take.
      * rewrite (bind_inr _ _ _ _ Hl). cbn [events outcome].
        by rewrite finish_run.
  - left. split; [done|].
    destruct (cut_returns _ _ _ _ _ Hout) as (img' & Hopen' & _ & _ & ->).
    by replace img' with img by congruence.
Qed.

Lemma cut_open_fails v p s d w oe :
  Image_open p w = inl oe ->
  cut v p s d w = Result [EOpen p] w (inl (OSError oe)).
Proof.
  intros Hopen. rewrite cut_eq. unfold bind at 1, call_Image_open.
  by rewrite Hopen.
Qed.

Lemma cut_zero_edge v p d w img :
  Image_open p w = inr img ->
  cut v p 0 d w = Result [EOpen p] w (inl ZeroDivisionError).
Proof.
  intros Hopen. rewrite cut_eq. unfold bind at 1, call_Image_open.
  by rewrite Hopen.
Qed.

(** Both copies of the routine are one routine up to the last line. *)
Lemma cut_as_prompted v p s d w :
  cut v p s d w = bind (cut Prompted p s d) (fun _ => finish v) w.
Proof.
  rewrite cut_eq. symmetry.
  erewrite bind_cong; [|apply cut_eq|reflexivity].
  rewrite bind_assoc. apply bind_ext; intros img w1.
  rewrite bind_assoc. apply bind_ext; intros nh w2.
  rewrite bind_assoc. apply bind_ext; intros nv w3.
  rewrite bind_assoc. apply bind_ext; intros _ w4.
  rewrite bind_assoc. apply bind_ext; intros _ w5.
  cbn [finish]. by rewrite bind_ret_l.
Qed.

End AllRuns.

(** ** Further properties of [cut_image_into_squares] *)

Section MoreLemmas.
Context {H : Host}.

(** The [save] calls of any run on an image that opens: the first [k] of
    the row-major list. *)
Lemma saves_cut_prefix v p s d w img :
  Image_open p w = inr img ->
  exists k : nat,
    (k <= length (grid (number_squares_vertical img s)
                       (number_squares_horizontal img s)))%nat /\
    saves (events (cut v p s d w)) =
      take k (tile_file img s d <$>
                grid (number_squares_vertical img s)
                     (number_squares_horizontal img s)) /\
    (outcome (cut v p s d w) = inr tt ->
     k = length (grid (number_squares_vertical img s)
                      (number_squares_horizontal img s))).
Proof.
  intros Hopen. destruct (Z.eq_dec s 0) as [->|Hs].
  { exists 0%nat. rewrite (cut_zero_edge _ _ _ _ _ Hopen). cbn [events outcome].
    split_and!; [lia|done|done]. }
  destruct (cut_cases v p s d w img Hopen Hs)
    as [[Hok Hev]|[(oe & Hout & _ & _ & Hev)|(oe & k & Hout & _ & Hk & Hev)]].
  - exists (length (grid (number_squares_vertical img s)
                         (number_squares_horizontal img s))).
    split_and!; [done| |done].
    rewrite (saves_cut _ _ _ _ _ _ Hok Hopen).
    by rewrite firstn_all2 by (rewrite length_fmap; lia).
  - exists 0%nat. rewrite Hev, Hout. split_and!; [lia| |done].
    change (EOpen p :: ?t) with ([EOpen p] ++ t).
    by rewrite saves_app, saves_ensure_events.
  - exists k. rewrite Hev, Hout. unfold tiles in Hk. rewrite length_fmap in Hk.
    split_and!; [lia| |done].
    change (EOpen p :: ?t) with ([EOpen p] ++ t).
    rewrite !saves_app, saves_ensure_events. unfold tiles.
    by rewrite <- fmap_take, saves_tiles, fmap_take.
Qed.

Lemma made_dirs_cut v p s d w q :
  q ∈ made_dirs (events (cut v p s d w)) -> q = d.
Proof.
  assert (forall t, q ∈ made_dirs (ensure_events d w ++ t) ->
            made_dirs t = [] -> q = d) as Hens.
  { intros t. rewrite made_dirs_app. intros Hin Ht. rewrite Ht, app_nil_r in Hin.
    revert Hin. unfold ensure_events. destruct (os_path_exists d w); cbn.
    - by intros ?%elem_of_nil.
    - by intros ->%list_elem_of_singleton. }
  destruct (Image_open p w) as [oe|img] eqn:Hopen.
  { rewrite (cut_open_fails _ _ _ _ _ _ Hopen). cbn. by intros ?%elem_of_nil. }
  destruct (Z.eq_dec s 0) as [->|Hs].
  { rewrite (cut_zero_edge _ _ _ _ _ Hopen). cbn. by intros ?%elem_of_nil. }
  destruct (cut_cases v p s d w img Hopen Hs)
    as [[_ Hev]|[(oe & _ & _ & _ & Hev)|(oe & k & _ & _ & _ & Hev)]];
    rewrite Hev; change (EOpen p :: ?t) with ([EOpen p] ++ t);
    rewrite made_dirs_app; cbn [made_dirs omap app]; intros Hin.
  - apply (Hens _ Hin). rewrite made_dirs_app. unfold tiles.
    rewrite made_dirs_tiles. by destruct v.
  - apply (Hens []); [by rewrite app_nil_r|done].
  - apply (Hens _ Hin). unfold tiles. by rewrite <- fmap_take, made_dirs_tiles.
Qed.

Lemma uint_free_of_slash u : free_of "/" (NilEmpty.string_of_uint u).
Proof. induction u; simpl; (split; [discriminate|done]) || done. Qed.

Lemma str_free_of_slash n : free_of "/" (str n).
Proof.
  unfold str. destruct (Z.to_int n) as [u|u]; simpl.
  - destruct u; try apply uint_free_of_slash. simpl. by split.
  - split; [discriminate|].
    destruct u; try apply uint_free_of_slash. simpl. by split.
Qed.

Lemma free_of_app c a b : free_of c a -> free_of c b -> free_of c (a +:+ b).
Proof.
  intros Ha Hb. induction a as [|x a IH]; simpl in *; [done|].
  destruct Ha. split; [done|]. by apply IH.
Qed.

Lemma file_name_free_of_slash j i : free_of "/" (file_name j i).
Proof.
  unfold file_name.
  apply (free_of_app _ "square_"); [by repeat split|].
  apply free_of_app; [apply str_free_of_slash|].
  apply (free_of_app _ "_"); [by repeat split|].
  apply free_of_app; [apply str_free_of_slash|by repeat split].
Qed.

(** The world a returning call leaves: the loop run from the world where
    the folder has been seen to, then the last line. *)
Lemma cut_final v p s d w img :
  Image_open p w = inr img ->
  outcome (cut v p s d w) = inr tt ->
  outcome (for_ (grid (number_squares_vertical img s)
                      (number_squares_horizontal img s))
                (save_tile img s d) (after_ensure d w)) = inr tt /\
  final (cut v p s d w) =
    final (finish v
      (final (for_ (grid (number_squares_vertical img s)
                         (number_squares_horizontal img s))
                   (save_tile img s d) (after_ensure d w)))).
Proof.
  intros Hopen Hok.
  destruct (cut_returns _ _ _ _ _ Hok) as (_ & _ & Hs & _ & _).
  revert Hok. rewrite (cut_open _ _ _ _ _ _ Hopen Hs). cbn [events final outcome].
  intros Hok.
  destruct (outcome_bind_inr _ _ _ _ Hok) as ([] & He & Hok1).
  destruct (outcome_bind_inr _ _ _ _ Hok1) as ([] & Hl & _).
  destruct (ensure_dir_run d w) as (_ & Hfin & _).
  rewrite (bind_inr _ _ _ _ He). cbn [events final outcome].
  rewrite (bind_inr _ _ _ _ Hl). cbn [events final outcome].
  rewrite Hfin in *. done.
Qed.

End MoreLemmas.

Section ErrorBehaviour.
Context {H : Host}.


(** X2.  No rollback and no skipping: in any run on an image that opens,
    the [save] calls made are the first [k] squares of the row-major
    order, for some [k]; a run that returns has made all of them, and a run
    that raises after a [save] raises an [OSError]. *)
Theorem failed_run_keeps_earlier_tiles v p s d w img :
  Image_open p w = inr img ->
  exists k : nat,
    (k <= length (grid (number_squares_vertical img s)
                       (number_squares_horizontal img s)))%nat /\
    saves (events (cut v p s d w)) =
      take k (tile_file img s d <$>
                grid (number_squares_vertical img s)
                     (number_squares_horizontal img s)) /\
    (outcome (cut v p s d w) = inr tt ->
     k = length (grid (number_squares_vertical img s)
                      (number_squares_horizontal img s))) /\
    (forall e, outcome (cut v p s d w) = inl e -> (0 < k)%nat ->
       exists oe, e = OSError oe).
Proof.
  intros Hopen.
  destruct (saves_cut_prefix v p s d w img Hopen) as (k & Hk & Hsaves & Hall).
  exists k. split_and!; [done..|].
  intros e He Hpos. destruct (Z.eq_dec s 0) as [->|Hs].
  { exfalso. rewrite grid_empty, length_nil in Hk; [lia|].
    left. unfold number_squares_vertical. by rewrite Z.div_0_r. }
  destruct (cut_cases v p s d w img Hopen Hs)
    as [[Hok _]|[(oe & Hout & _)|(oe & k' & Hout & _)]];
    rewrite ?Hok, ?Hout in He; [done|..]; injection He as <-; eauto.
Qed.

(** A [print] found in the trace of a call: the call is the
    argument-driven one, it has returned, and the line is its last one. *)
Lemma print_in_cut v p s d w line :
  EPrint line ∈ events (cut v p s d w) ->
  v = ArgumentDriven /\ line = "Images successfully applied to folder." /\
  outcome (cut v p s d w) = inr tt.
Proof.
  assert (forall t, Forall (fun e => forall l, e <> EPrint l) t ->
                    Forall (fun e => forall l, e <> EPrint l)
                      (EOpen p :: ensure_events d w ++ t)) as Hpre.
  { intros t Ht. apply Forall_cons. split; [done|]. apply Forall_app. split; [|done].
    unfold ensure_events. destruct (os_path_exists d w); repeat constructor; done. }
  assert (forall img k, Forall (fun e => forall l, e <> EPrint l)
                          (take k (tiles img s d))) as Htiles.
  { intros img k. apply Forall_take. unfold tiles. apply Forall_fmap.
    apply Forall_forall. intros c _ l. done. }
  assert (forall t, Forall (fun e => forall l, e <> EPrint l) t ->
                    EPrint line ∈ t -> False) as Hno.
  { intros t Ht Hin. rewrite Forall_forall in Ht. by apply (Ht _ Hin line). }
  destruct (Image_open p w) as [oe|img] eqn:Hopen.
  { rewrite (cut_open_fails _ _ _ _ _ _ Hopen). cbn [events].
    intros [=]%list_elem_of_singleton. }
  destruct (Z.eq_dec s 0) as [->|Hs].
  { rewrite (cut_zero_edge _ _ _ _ _ Hopen). cbn [events].
    intros [=]%list_elem_of_singleton. }
  destruct (cut_cases v p s d w img Hopen Hs)
    as [[Hok Hev]|[(oe & _ & _ & _ & Hev)|(oe & k & _ & _ & _ & Hev)]];
    rewrite Hev; intros Hin.
  - rewrite app_comm_cons, app_assoc in Hin.
    apply elem_of_app in Hin as [Hin|Hin].
    + exfalso. apply (Hno _ (Hpre _ (Htiles img (length (tiles img s d))))).
      by rewrite firstn_all.
    + destruct v; cbn in Hin; [by apply elem_of_nil in Hin|].
      apply list_elem_of_singleton in Hin. by injection Hin as ->.
  - exfalso. apply (Hno _ (Hpre [] (Forall_nil_2 _))). by rewrite app_nil_r.
  - exfalso. by apply (Hno _ (Hpre _ (Htiles img k))).
Qed.

(** X3.  The line ["Images successfully applied to folder."] is printed by
    the argument-driven routine exactly when the call returns; it prints
    nothing else, and the prompted routine prints nothing at all. *)
Theorem success_line_iff_returns p s d w :
  (EPrint "Images successfully applied to folder."
     ∈ events (cut ArgumentDriven p s d w) <->
   outcome (cut ArgumentDriven p s d w) = inr tt) /\
  (forall line, EPrint line ∈ events (cut ArgumentDriven p s d w) ->
     line = "Images successfully applied to folder.") /\
  (forall line, EPrint line ∉ events (cut Prompted p s d w)).
Proof.
  split_and!.
  - split.
    + intros Hin. by destruct (print_in_cut _ _ _ _ _ _ Hin) as (_ & _ & ?).
    + intros Hok. destruct (cut_returns _ _ _ _ _ Hok) as (img & _ & _ & _ & ->).
      cbn [epilogue]. rewrite app_comm_cons, !app_assoc.
      apply elem_of_app. right. by apply list_elem_of_singleton.
  - intros line Hin. by destruct (print_in_cut _ _ _ _ _ _ Hin) as (_ & ? & _).
  - intros line Hin. by destruct (print_in_cut _ _ _ _ _ _ Hin) as (? & _).
Qed.

End ErrorBehaviour.

Section MoreProperties.
Context {H : Host}.

(** X4.  The two copies of [cut_image_into_squares] differ by the last
    line only: where the prompted one raises, the argument-driven one ends
    the same way, with the same calls made and the same world; where it
    returns, the argument-driven one has made the same calls, then printed
    its line, and returns. *)
Theorem copies_differ_by_last_line p s d w :
  (forall e, outcome (cut Prompted p s d w) = inl e ->
     cut ArgumentDriven p s d w = cut Prompted p s d w) /\
  (outcome (cut Prompted p s d w) = inr tt ->
     cut ArgumentDriven p s d w =
       Result (events (cut Prompted p s d w) ++
                 [EPrint "Images successfully applied to folder."])
              (builtin_print "Images successfully applied to folder."
                 (final (cut Prompted p s d w)))
              (inr tt)).
Proof.
  split.
  - intros e He. rewrite (cut_as_prompted ArgumentDriven), (bind_inl _ _ _ _ He).
    rewrite <- He. by destruct (cut Prompted p s d w).
  - intros Hok. by rewrite (cut_as_prompted ArgumentDriven), (bind_inr _ _ _ _ Hok).
Qed.

(** X5.  No gap inside the covered region: for a positive edge [s], a
    source pixel [(x, y)] with [x < columns * s] and [y < rows * s] lies
    in the box of the square of row [y / s], column [x / s] and of no other
    square; a call that returns has saved that square, and the pixel is
    found in it at [(x mod s, y mod s)]. *)
Theorem covered_pixel_in_one_tile v p s d w img x y :
  Image_open p w = inr img -> 0 < s ->
  outcome (cut v p s d w) = inr tt ->
  0 <= x < number_squares_horizontal img s * s ->
  0 <= y < number_squares_vertical img s * s ->
  tile_file img s d (y / s, x / s) ∈ saves (events (cut v p s d w)) /\
  in_box (tile_box s (y / s) (x / s)) x y /\
  pixel_at (crop img (tile_box s (y / s) (x / s))) (x mod s) (y mod s) =
    pixel_at img x y /\
  is_Some (pixel_at img x y) /\
  (forall c, c ∈ grid (number_squares_vertical img s)
                      (number_squares_horizontal img s) ->
     in_box (tile_box s c.1 c.2) x y -> c = (y / s, x / s)).
Proof.
  intros Hopen Hs Hok Hx Hy.
  pose proof (Z.div_mod x s ltac:(lia)) as Hxd.
  pose proof (Z.div_mod y s ltac:(lia)) as Hyd.
  pose proof (Z.mod_pos_bound x s Hs) as Hxm.
  pose proof (Z.mod_pos_bound y s Hs) as Hym.
  assert (0 <= x / s < number_squares_horizontal img s) as Hi.
  { split; [apply Z.div_pos; lia|apply Z.div_lt_upper_bound; lia]. }
  assert (0 <= y / s < number_squares_vertical img s) as Hj.
  { split; [apply Z.div_pos; lia|apply Z.div_lt_upper_bound; lia]. }
  split_and!.
  - rewrite (saves_cut _ _ _ _ _ _ Hok Hopen). apply list_elem_of_fmap.
    exists (y / s, x / s). split; [done|]. by apply elem_of_grid.
  - unfold in_box, tile_box. lia.
  - destruct (pixel_at_crop_tile img s (y / s) (x / s) (x mod s) (y mod s))
      as [Hsq Hsrc]; [done..|].
    rewrite Hsq. rewrite <- Hsrc. f_equal; lia.
  - destruct (pixel_at_crop_tile img s (y / s) (x / s) (x mod s) (y mod s))
      as [_ Hsrc]; [done..|].
    replace x with (x / s * s + x mod s) at 1 by lia.
    replace y with (y / s * s + y mod s) at 1 by lia.
    rewrite Hsrc. eauto.
  - intros [j i] _. unfold in_box, tile_box. cbn [fst snd]. intros [Hbx Hby].
    f_equal.
    + apply (Z.div_unique_pos y s j (y - j * s)); lia.
    + apply (Z.div_unique_pos x s i (x - i * s)); lia.
Qed.


(** X7.  Whatever the arguments and however the call ends, the only
    directory it asks for is the destination folder, and every path it
    saves to is the destination folder joined with a name
    [square_{j}_{i}.png] that has no ["/"] in it: nothing is written
    outside the folder or in a folder below it. *)
Theorem writes_stay_in_destination v p s d w :
  (forall q, q ∈ made_dirs (events (cut v p s d w)) -> q = d) /\
  (forall path sq, (path, sq) ∈ saves (events (cut v p s d w)) ->
     exists j i, 0 <= j /\ 0 <= i /\
       path = os_path_join d (file_name j i) /\
       (path = d +:+ file_name j i \/ path = d +:+ "/" +:+ file_name j i) /\
       free_of "/" (file_name j i)).
Proof.
  split; [intros q; apply made_dirs_cut|].
  intros path sq Hin.
  destruct (Image_open p w) as [oe|img] eqn:Hopen.
  { revert Hin. rewrite (cut_open_fails _ _ _ _ _ _ Hopen). cbn.
    by intros ?%elem_of_nil. }
  destruct (saves_cut_prefix v p s d w img Hopen) as (k & _ & Hsaves & _).
  rewrite Hsaves in Hin.
  apply (subseteq_take k) in Hin.
  apply list_elem_of_fmap in Hin as ([j i] & Heq & [Hj Hi]%elem_of_grid).
  unfold tile_file in Heq. cbn [fst snd] in Heq. injection Heq as -> _.
  exists j, i. split_and!; [lia|lia|done| |apply file_name_free_of_slash].
  apply os_path_join_relative, file_name_relative.
Qed.

End MoreProperties.

Section ReadBack.
Context {H : Host} `{!StoreLaws H}.

(** The loop leaves alone every path that is not one of its squares'. *)
Lemma for_save_frame img s d cs w q :
  outcome (for_ cs (save_tile img s d) w) = inr tt ->
  (forall c, c ∈ cs -> os_path_join d (file_name c.1 c.2) <> q) ->
  Image_open q (final (for_ cs (save_tile img s d) w)) = Image_open q w.
Proof.
  revert w. induction cs as [|c cs IH]; intros w; [done|]. cbn [for_].
  intros Hok Hother.
  destruct (outcome_bind_inr _ _ _ _ Hok) as ([] & Hc & Hrest).
  rewrite (bind_inr _ _ _ _ Hc). cbn [final].
  rewrite IH; [|done|intros c' Hc'; apply Hother; by right].
  revert Hc. unfold save_tile, call_save, lift_os.
  destruct (Image_save _ _ w) as [w' [oe|]] eqn:Hs; cbn [outcome final]; [done|].
  intros _. apply (save_open_other _ _ _ _ _ Hs).
  intros ->. apply (Hother c); [by left|done].
Qed.

(** After the loop each square can be opened again from its path. *)
Lemma for_save_read_back img s d cs w c :
  NoDup cs ->
  outcome (for_ cs (save_tile img s d) w) = inr tt ->
  c ∈ cs ->
  Image_open (os_path_join d (file_name c.1 c.2))
             (final (for_ cs (save_tile img s d) w)) =
    inr (crop img (tile_box s c.1 c.2)).
Proof.
  revert w. induction cs as [|c0 cs IH]; intros w Hnd Hok Hin.
  { by apply elem_of_nil in Hin. }
  apply NoDup_cons in Hnd as [Hfresh Hnd]. revert Hok. cbn [for_]. intros Hok.
  destruct (outcome_bind_inr _ _ _ _ Hok) as ([] & Hc & Hrest).
  rewrite (bind_inr _ _ _ _ Hc). cbn [final].
  destruct (decide (c ∈ cs)) as [Hcs|Hcs]; [by apply IH|].
  apply elem_of_cons in Hin as [->|]; [|done].
  rewrite for_save_frame; [|done|].
  - revert Hc. unfold save_tile, call_save, lift_os.
    destruct (Image_save _ _ w) as [w' [oe|]] eqn:Hs; cbn [outcome final]; [done|].
    intros _. by apply (save_open _ _ _ _ Hs).
  - intros c' Hc' Heq. apply tile_path_inj in Heq as ->. done.
Qed.

(** X8.  On a host whose files obey [StoreLaws], once a call has returned
    every square of the grid can be opened from its path
    [square_{j}_{i}.png] in the destination folder and is the crop of its
    box (no square has been overwritten by a later one); and a path that
    is not a square's path opens as it did when the loop started. *)
Theorem tiles_read_back v p s d w img :
  Image_open p w = inr img ->
  outcome (cut v p s d w) = inr tt ->
  (forall j i,
     0 <= j < number_squares_vertical img s ->
     0 <= i < number_squares_horizontal img s ->
     Image_open (os_path_join d (file_name j i)) (final (cut v p s d w)) =
       inr (crop img (tile_box s j i))) /\
  (forall q,
     (forall j i, os_path_join d (file_name j i) <> q) ->
     Image_open q (final (cut v p s d w)) = Image_open q (after_ensure d w)).
Proof.
  intros Hopen Hok. destruct (cut_final _ _ _ _ _ _ Hopen Hok) as [Hloop ->].
  assert (forall q w0, Image_open q (final (finish v w0)) = Image_open q w0) as Hfin.
  { intros q w0. rewrite finish_run. destruct v; [done|]. apply print_open. }
  split.
  - intros j i Hj Hi. rewrite Hfin.
    apply (for_save_read_back img s d _ _ (j, i)); [apply NoDup_grid|done|].
    by apply elem_of_grid.
  - intros q Hq. rewrite Hfin. apply for_save_frame; [done|].
    intros c _. apply Hq.
Qed.

End ReadBack.

#[export] Instance ref_store_laws : StoreLaws Ref.host.
Proof.
  split; simpl.
  - intros img q w w' Hs. apply ref_save_dirs in Hs as [_ Hf].
    unfold Ref.open. by rewrite Hf, lookup_insert_eq.
  - intros img q p w w' Hs Hne. apply ref_save_dirs in Hs as [Hd Hf].
    unfold Ref.open, Ref.isdir. by rewrite Hf, Hd, lookup_insert_ne.
  - done.
Qed.

(** ** Sessions of the prompted script *)

Section SessionLemmas.
Context {H : Host} {T : Terminal H}.

Lemma ibind_inr {A B} (m : I A) (f : A -> I B) stdin w a :
  ended (m stdin w) = inr a ->
  ibind m f stdin w =
    Session (transcript (m stdin w) ++
               transcript (f a (unread (m stdin w)) (world_after (m stdin w))))
            (unread (f a (unread (m stdin w)) (world_after (m stdin w))))
            (world_after (f a (unread (m stdin w)) (world_after (m stdin w))))
            (ended (f a (unread (m stdin w)) (world_after (m stdin w)))).
Proof. unfold ibind. by intros ->. Qed.

Lemma ibind_inl {A B} (m : I A) (f : A -> I B) stdin w e :
  ended (m stdin w) = inl e ->
  ibind m f stdin w =
    Session (transcript (m stdin w)) (unread (m stdin w))
            (world_after (m stdin w)) (inl e).
Proof. unfold ibind. by intros ->. Qed.

(** The recursion on the unread lines is the [while] loop: test, and when
    the test fails complain, ask again and go round. *)
Lemma while_not_isfile_eq image_path stdin w :
  while_not_isfile image_path stdin w =
  (file <- call_os_path_isfile image_path ;;
   if negb file
   then lift (call_print "Invalid image path. Try again.") ;;;
        image_path <- call_input "Enter the image path: " ;;
        while_not_isfile image_path
   else iret image_path)%session stdin w.
Proof.
  unfold ibind at 1, call_os_path_isfile. cbn [ended unread world_after transcript].
  destruct stdin as [|line rest]; cbn [while_not_isfile];
    destruct (os_path_isfile image_path w); cbn [negb]; done.
Qed.

Lemma ibind_run_inr {A B} (m : I A) (f : A -> I B) stdin w t u w' a :
  m stdin w = Session t u w' (inr a) ->
  ibind m f stdin w =
    (let r := f a u w' in
     Session (t ++ transcript r) (unread r) (world_after r) (ended r)).
Proof. unfold ibind. by intros ->. Qed.

Lemma ibind_run_inl {A B} (m : I A) (f : A -> I B) stdin w t u w' e :
  m stdin w = Session t u w' (inl e) ->
  ibind m f stdin w = Session t u w' (inl e).
Proof. unfold ibind. by intros ->. Qed.

Lemma ibind_input_cons {B} prompt (f : string -> I B) line rest w :
  ibind (call_input prompt) f (line :: rest) w =
    (let r := f line rest (show_prompt prompt w) in
     Session (TInput prompt (Some line) :: transcript r)
             (unread r) (world_after r) (ended r)).
Proof. done. Qed.

Lemma ibind_lift_int {B} text (f : Z -> I B) stdin w :
  ibind (lift (call_int text)) f stdin w =
  match builtin_int text with
  | Some n => f n stdin w
  | None => Session [] stdin w (inl (Raised ValueError))
  end.
Proof.
  unfold ibind, lift, call_int. destruct (builtin_int text) as [n|]; [|done].
  cbn. by destruct (f n stdin w).
Qed.

Lemma answers_app t1 t2 : answers (t1 ++ t2) = answers t1 ++ answers t2.
Proof. apply omap_app. Qed.
Lemma refused_app t1 t2 : refused (t1 ++ t2) = refused t1 ++ refused t2.
Proof. apply omap_app. Qed.
Lemma accepted_app t1 t2 : accepted (t1 ++ t2) = accepted t1 ++ accepted t2.
Proof. apply omap_app. Qed.
Lemma calls_app t1 t2 : calls (t1 ++ t2) = calls t1 ++ calls t2.
Proof. apply omap_app. Qed.
Lemma printed_app t1 t2 : printed (t1 ++ t2) = printed t1 ++ printed t2.
Proof. apply omap_app. Qed.

Lemma calls_lift (t : list event) : calls (TCall <$> t) = t.
Proof. induction t as [|e t IH]; [done|]. cbn. by rewrite <- IH at 2. Qed.

Lemma answers_lift (t : list event) : answers (TCall <$> t) = [].
Proof. by induction t. Qed.
Lemma refused_lift (t : list event) : refused (TCall <$> t) = [].
Proof. by induction t. Qed.
Lemma accepted_lift (t : list event) : accepted (TCall <$> t) = [].
Proof. by induction t. Qed.

(** What the loop does: it reads the lines in order, checks the first path
    and every line read, refuses all of them but the last, complains once
    per refusal and makes no other call; it ends with the path accepted or,
    the lines exhausted, with [EOFError]. *)
Lemma while_not_isfile_spec image_path stdin w :
  let r := while_not_isfile image_path stdin w in
  answers (transcript r) ++ unread r = stdin /\
  calls (transcript r) =
    replicate (length (refused (transcript r)))
              (EPrint "Invalid image path. Try again.") /\
  image_path :: answers (transcript r) =
    refused (transcript r) ++ accepted (transcript r) /\
  match ended r with
  | inr q => accepted (transcript r) = [q]
  | inl e => e = EOFError /\ unread r = [] /\ accepted (transcript r) = []
  end.
Proof.
  revert image_path w. induction stdin as [|line rest IH]; intros image_path w;
    cbn [while_not_isfile]; destruct (os_path_isfile image_path w);
    cbn [transcript unread ended]; try done.
  destruct (IH line (show_prompt "Enter the image path: "
                       (builtin_print "Invalid image path. Try again." w)))
    as (Hans & Hcalls & Hpaths & Hend).
  cbn zeta in Hans, Hcalls, Hpaths, Hend.
  set (r := while_not_isfile line rest _) in *.
  change (?a :: ?b :: ?c :: transcript r) with ([a; b; c] ++ transcript r).
  rewrite answers_app, calls_app, refused_app, accepted_app.
  change (answers [_; _; _]) with [line].
  change (calls [_; _; _]) with [EPrint "Invalid image path. Try again."].
  change (refused [_; _; _]) with [image_path].
  change (accepted [_; _; _]) with (@nil string).
  split_and!.
  - cbn [app]. by rewrite Hans.
  - cbn [app length replicate]. by rewrite Hcalls.
  - cbn [app]. by rewrite Hpaths.
  - done.
Qed.

End SessionLemmas.

Section SessionShape.
Context {H : Host} {T : Terminal H}.

(** The session of the prompted script, stage by stage. *)
Lemma main_eq stdin (w : world) :
  Prompts.main (T:=T) stdin w =
  match stdin with
  | [] =>
      Session [TInput "Enter the image path: " None] []
              (show_prompt "Enter the image path: " w) (inl EOFError)
  | first :: rest =>
      let l := while_not_isfile first rest (show_prompt "Enter the image path: " w) in
      let asked := TInput "Enter the image path: " (Some first) :: transcript l in
      match ended l with
      | inl e => Session asked (unread l) (world_after l) (inl e)
      | inr image_path =>
          let w1 := show_prompt "Enter the size of the square: " (world_after l) in
          match unread l with
          | [] =>
              Session (asked ++ [TInput "Enter the size of the square: " None])
                      [] w1 (inl EOFError)
          | text :: rest1 =>
              match builtin_int text with
              | None =>
                  Session (asked ++ [TInput "Enter the size of the square: " (Some text)])
                          rest1 w1 (inl (Raised ValueError))
              | Some square_size =>
                  let w2 := show_prompt "Enter the destination folder name: " w1 in
                  match rest1 with
                  | [] =>
                      Session (asked ++
                                 [TInput "Enter the size of the square: " (Some text);
                                  TInput "Enter the destination folder name: " None])
                              [] w2 (inl EOFError)
                  | destination_folder :: rest2 =>
                      let c := cut Prompted image_path square_size
                                   destination_folder w2 in
                      Session (asked ++
                                 [TInput "Enter the size of the square: " (Some text);
                                  TInput "Enter the destination folder name: "
                                         (Some destination_folder)] ++
                                 (TCall <$> events c))
                              rest2 (final c)
                              (match outcome c with
                               | inl e => inl (Raised e)
                               | inr a => inr a
                               end)
                  end
              end
          end
      end
  end.
Proof.
  unfold Prompts.main. destruct stdin as [|first rest]; [done|].
  rewrite ibind_input_cons. cbn zeta.
  destruct (while_not_isfile first rest _) as [tl ul wl [e|image_path]] eqn:Hl;
    cbn [transcript unread world_after ended app].
  { by rewrite (ibind_run_inl _ _ _ _ _ _ _ _ Hl). }
  rewrite (ibind_run_inr _ _ _ _ _ _ _ _ Hl). cbn zeta.
  destruct ul as [|text rest1]; cbn [transcript unread world_after ended app]; [done|].
  rewrite ibind_input_cons, ibind_lift_int. cbn zeta.
  destruct (builtin_int text) as [n|];
    cbn [transcript unread world_after ended app]; [|done].
  destruct rest1 as [|destination_folder rest2];
    cbn [transcript unread world_after ended app]; [done|].
  rewrite ibind_input_cons. cbn zeta.
  unfold lift. cbn [cut transcript unread world_after ended app]. done.
Qed.

End SessionShape.

Section CallsOfARun.
Context {H : Host}.

(** The one [Image.open] of a call is that of its first argument. *)
Lemma open_in_cut v p s d (w : world) q :
  EOpen q ∈ events (cut v p s d w) -> q = p.
Proof.
  assert (forall t, Forall (fun e => forall l, e <> EOpen l) t ->
                    EOpen q ∈ EOpen p :: ensure_events d w ++ t -> q = p) as Hpre.
  { intros t Ht [[= ->]|Hin]%elem_of_cons; [done|]. exfalso.
    apply elem_of_app in Hin as [Hin|Hin].
    - revert Hin. unfold ensure_events. destruct (os_path_exists d w).
      + by intros [=]%list_elem_of_singleton.
      + intros [[=]|[=]%list_elem_of_singleton]%elem_of_cons.
    - rewrite Forall_forall in Ht. by apply (Ht _ Hin q). }
  assert (forall img k, Forall (fun e => forall l, e <> EOpen l)
                          (take k (tiles img s d))) as Htiles.
  { intros img k. apply Forall_take. unfold tiles. apply Forall_fmap.
    apply Forall_forall. intros c _ l. done. }
  destruct (Image_open p w) as [oe|img] eqn:Hopen.
  { rewrite (cut_open_fails _ _ _ _ _ _ Hopen). cbn [events].
    by intros [= ->]%list_elem_of_singleton. }
  destruct (Z.eq_dec s 0) as [->|Hs].
  { rewrite (cut_zero_edge _ _ _ _ _ Hopen). cbn [events].
    by intros [= ->]%list_elem_of_singleton. }
  destruct (cut_cases v p s d w img Hopen Hs)
    as [[_ Hev]|[(oe & _ & _ & _ & Hev)|(oe & k & _ & _ & _ & Hev)]];
    rewrite Hev.
  - apply Hpre. apply Forall_app. split.
    + specialize (Htiles img (length (tiles img s d))). by rewrite firstn_all in Htiles.
    + destruct v; repeat constructor; done.
  - rewrite <- (app_nil_r (ensure_events d w)). by apply Hpre.
  - by apply Hpre.
Qed.

(** What a call can end with when it raises. *)
Lemma cut_raises v p s d (w : world) e :
  outcome (cut v p s d w) = inl e ->
  e = ZeroDivisionError \/ exists oe, e = OSError oe.
Proof.
  destruct (Image_open p w) as [oe|img] eqn:Hopen.
  { rewrite (cut_open_fails _ _ _ _ _ _ Hopen). intros [= <-]. eauto. }
  destruct (Z.eq_dec s 0) as [->|Hs].
  { rewrite (cut_zero_edge _ _ _ _ _ Hopen). intros [= <-]. eauto. }
  destruct (cut_cases v p s d w img Hopen Hs)
    as [[Hok _]|[(oe & Hout & _)|(oe & k & Hout & _)]];
    rewrite ?Hok, ?Hout; intros [= <-]; eauto.
Qed.

End CallsOfARun.

Section ArgumentDrivenMain.
Context {H : Host}.

Lemma success_line_iff_returns_aux p s d (w : world) :
  (EPrint "Images successfully applied to folder."
     ∈ events (cut ArgumentDriven p s d w) <->
   outcome (cut ArgumentDriven p s d w) = inr tt) /\
  (forall e, outcome (cut ArgumentDriven p s d w) = inl e ->
     e = ZeroDivisionError \/ exists oe, e = OSError oe).
Proof.
  split; [|intros e; apply cut_raises]. split.
  - intros Hin. by destruct (print_in_cut _ _ _ _ _ _ Hin) as (_ & _ & ?).
  - intros Hok. destruct (cut_returns _ _ _ _ _ Hok) as (img & _ & _ & _ & ->).
    cbn [epilogue]. rewrite app_comm_cons, !app_assoc.
    apply elem_of_app. right. by apply list_elem_of_singleton.
Qed.

(** X9.  [main] prints the usage line exactly when [sys.argv] does not
    have four entries: neither an edge that [int] refuses nor a failure of
    the routine brings it up. *)
Theorem usage_line_iff_wrong_arity argv (w : world) :
  EPrint "Usage: script.py <image_path> <square_size> <destination_folder>"
    ∈ events (CropImage.main argv w) <->
  length argv <> 4%nat.
Proof.
  destruct (Nat.eqb_spec (length argv) 4) as [Hlen|Hlen].
  - split; [|done]. intros Hin. exfalso.
    destruct argv as [|a0 [|a1 [|a2 [|a3 [|]]]]]; try done. clear Hlen.
    revert Hin. rewrite main_four. destruct (builtin_int a2) as [n|].
    + intros Hin. by destruct (print_in_cut _ _ _ _ _ _ Hin) as (_ & ? & _).
    + cbn [events]. by intros ?%elem_of_nil.
  - split; [done|]. intros _. unfold CropImage.main.
    destruct (Nat.eqb_spec (length argv) 4) as [|_]; [done|].
    unfold bind; simpl. by left.
Qed.

(** X10.  The exit status of [main] is 0 or 1, and 0 exactly when the line
    ["Images successfully applied to folder."] has been printed.  With four
    entries of which the third is refused by [int], [main] raises
    [ValueError] before any call has been made. *)
Theorem main_exit_status argv (w : world) :
  (exit_status (outcome (CropImage.main argv w)) = 0 \/
   exit_status (outcome (CropImage.main argv w)) = 1) /\
  (exit_status (outcome (CropImage.main argv w)) = 0 <->
   EPrint "Images successfully applied to folder."
     ∈ events (CropImage.main argv w)) /\
  (forall a0 a1 a2 a3, argv = [a0; a1; a2; a3] -> builtin_int a2 = None ->
     CropImage.main argv w = Result [] w (inl ValueError)).
Proof.
  cut ((exit_status (outcome (CropImage.main argv w)) = 0 \/
        exit_status (outcome (CropImage.main argv w)) = 1) /\
       (exit_status (outcome (CropImage.main argv w)) = 0 <->
        EPrint "Images successfully applied to folder."
          ∈ events (CropImage.main argv w))).
  { intros [? ?]. split_and!; [done..|].
    intros a0 a1 a2 a3 -> Hnone. by rewrite main_four, Hnone. }
  destruct (Nat.eqb_spec (length argv) 4) as [Hlen|Hlen].
  - destruct argv as [|a0 [|a1 [|a2 [|a3 [|]]]]]; try done. clear Hlen.
    rewrite main_four. destruct (builtin_int a2) as [n|] eqn:Hint.
    + destruct (success_line_iff_returns_aux a1 n a3 w) as [Hiff Hexc].
      destruct (outcome (cut ArgumentDriven a1 n a3 w)) as [e|[]] eqn:Hout.
      * destruct (Hexc e eq_refl) as [->|[oe ->]]; cbn [exit_status];
          (split; [by right|]); (split; [done|]); intros Hin%Hiff; done.
      * cbn [exit_status]. split; [by left|].
        split; [|done]. intros _. by apply Hiff.
    + cbn [outcome events exit_status]. split; [by right|].
      split; [done|]. by intros ?%elem_of_nil.
  - assert (CropImage.main argv w =
      Result [EPrint "Usage: script.py <image_path> <square_size> <destination_folder>"]
             (builtin_print
                "Usage: script.py <image_path> <square_size> <destination_folder>" w)
             (inl (SystemExit 1))) as ->.
    { unfold CropImage.main.
      destruct (Nat.eqb_spec (length argv) 4) as [|_]; [done|]. by unfold bind; simpl. }
    cbn [outcome events exit_status]. split; [by right|].
    split; [done|]. by intros [=]%list_elem_of_singleton.
Qed.

End ArgumentDrivenMain.

Lemma answers_typed prompt l t : answers (TInput prompt (Some l) :: t) = l :: answers t.
Proof. done. Qed.
Lemma answers_eof prompt t : answers (TInput prompt None :: t) = answers t.
Proof. done. Qed.
Lemma refused_input prompt l t : refused (TInput prompt l :: t) = refused t.
Proof. done. Qed.
Lemma accepted_input prompt l t : accepted (TInput prompt l :: t) = accepted t.
Proof. done. Qed.
Lemma calls_input prompt l t : calls (TInput prompt l :: t) = calls t.
Proof. done. Qed.

Ltac tidy_transcript :=
  repeat first
    [ rewrite answers_app | rewrite refused_app | rewrite accepted_app
    | rewrite calls_app | rewrite answers_typed | rewrite answers_eof
    | rewrite refused_input | rewrite accepted_input | rewrite calls_input
    | rewrite answers_lift | rewrite refused_lift | rewrite accepted_lift
    | rewrite calls_lift ];
  change (answers []) with (@nil string);
  change (refused []) with (@nil string);
  change (accepted []) with (@nil string);
  change (calls []) with (@nil event);
  rewrite ?app_nil_r.

Section PromptedSessions.
Context {H : Host} {T : Terminal H}.

Lemma printed_of_calls t :
  printed t =
  omap (fun e => match e with EPrint l => Some l | _ => None end) (calls t).
Proof.
  induction t as [|e t IH]; [done|].
  destruct e as [pr [l|]|pth [|]|c]; try exact IH.
  destruct c; try exact IH.
  change (line :: printed t = line :: omap
    (fun e => match e with EPrint l => Some l | _ => None end) (calls t)).
  by rewrite IH.
Qed.

Lemma printed_complaints n :
  omap (fun e => match e with EPrint l => Some l | _ => None end)
       (replicate n (EPrint "Invalid image path. Try again.")) =
  replicate n "Invalid image path. Try again."%string.
Proof. induction n as [|n IH]; [done|]. cbn. by rewrite <- IH. Qed.

Lemma printed_prompted_cut p s d (w : world) :
  omap (fun e => match e with EPrint l => Some l | _ => None end)
       (events (cut Prompted p s d w)) = [].
Proof.
  assert (forall line, EPrint line ∉ events (cut Prompted p s d w)) as Hno.
  { intros line Hin. by destruct (print_in_cut _ _ _ _ _ _ Hin) as (? & _). }
  revert Hno. generalize (events (cut Prompted p s d w)) as t.
  induction t as [|e t IH]; [done|]. intros Hno.
  destruct e; cbn; try (apply IH; intros l Hl; apply (Hno l); by right).
  exfalso. apply (Hno line). by left.
Qed.

(** The session in terms of what the loop did. *)
Lemma main_session stdin (w : world) :
  let r := Prompts.main (T:=T) stdin w in
  answers (transcript r) ++ unread r = stdin /\
  ((exists e, ended r = inl e /\ (e = EOFError \/ e = Raised ValueError) /\
      (e = EOFError -> unread r = []) /\
      (e = Raised ValueError ->
         exists text, text ∈ answers (transcript r) /\ builtin_int text = None) /\
      calls (transcript r) =
        replicate (length (refused (transcript r)))
                  (EPrint "Invalid image path. Try again.")) \/
   (exists image_path square_size destination_folder w',
      let c := cut Prompted image_path square_size destination_folder w' in
      accepted (transcript r) = [image_path] /\
      image_path ∈ answers (transcript r) /\
      length (answers (transcript r)) = (length (refused (transcript r)) + 3)%nat /\
      calls (transcript r) =
        replicate (length (refused (transcript r)))
                  (EPrint "Invalid image path. Try again.") ++ events c /\
      world_after r = final c /\
      ended r = match outcome c with inl e => inl (Raised e) | inr a => inr a end)).
Proof.
  cbn zeta. rewrite main_eq. destruct stdin as [|first rest].
  { split; [done|]. left. exists EOFError. split_and!; try done; by left. }
  cbn zeta.
  pose proof (while_not_isfile_spec first rest
                (show_prompt "Enter the image path: " w)) as Hspec.
  cbn zeta in Hspec. destruct Hspec as (Hans & Hcalls & Hpaths & Hend).
  destruct (while_not_isfile first rest _) as [tl ul wl el].
  cbn [transcript unread world_after ended] in *.
  destruct el as [e|image_path].
  { destruct Hend as (-> & -> & Hnone). cbn [transcript unread ended].
    tidy_transcript. rewrite app_nil_r in Hans.
    split; [by rewrite Hans|].
    left. exists EOFError. split_and!; try done; by left. }
  destruct ul as [|text rest1]; cbn [transcript unread ended].
  { tidy_transcript. rewrite app_nil_r in Hans.
    split; [by rewrite Hans|].
    left. exists EOFError. split_and!; try done; by left. }
  destruct (builtin_int text) as [n|] eqn:Hint; cbn [transcript unread ended].
  2:{ tidy_transcript.
      split; [cbn [app]; rewrite <- ?app_assoc; cbn [app]; by rewrite Hans|].
      left. exists (Raised ValueError). split_and!; try done; [by right|].
      intros _. exists text. split; [|done].
      right. apply elem_of_app. right. by left. }
  destruct rest1 as [|destination_folder rest2];
    cbn [transcript unread world_after ended].
  { tidy_transcript.
    split; [cbn [app]; rewrite <- ?app_assoc; cbn [app]; by rewrite Hans|].
    left. exists EOFError. split_and!; try done; by left. }
  tidy_transcript.
  split; [cbn [app]; rewrite <- ?app_assoc; cbn [app]; by rewrite Hans|].
  right. exists image_path, n, destination_folder.
  exists (show_prompt "Enter the destination folder name: "
            (show_prompt "Enter the size of the square: " wl)).
  cbn zeta. split_and!; try done.
  - rewrite Hend in Hpaths.
    assert (image_path ∈ first :: answers tl) as Hin.
    { rewrite Hpaths. apply elem_of_app. right. by left. }
    apply elem_of_cons in Hin as [->|Hin]; [by left|].
    right. apply elem_of_app. by left.
  - apply (f_equal length) in Hpaths. rewrite Hend in Hpaths.
    rewrite length_app in Hpaths. cbn [length] in Hpaths.
    cbn [length]. rewrite length_app. cbn [length]. lia.
  - by rewrite Hcalls.
Qed.

End PromptedSessions.

Section PromptedClaims.
Context {H : Host} {T : Terminal H}.

(** X11.  The prompted script only ever opens a path that
    [os.path.isfile] has accepted: if the routine's [Image.open] is
    reached, its path is the one path accepted in the session, and it is a
    line the user typed. *)
Theorem opens_only_accepted_path stdin (w : world) q :
  EOpen q ∈ calls (transcript (Prompts.main (T:=T) stdin w)) ->
  accepted (transcript (Prompts.main (T:=T) stdin w)) = [q] /\
  q ∈ answers (transcript (Prompts.main (T:=T) stdin w)).
Proof.
  destruct (main_session stdin w) as [_ Hcases]. cbn zeta in Hcases.
  destruct Hcases as [(e & _ & _ & _ & _ & ->)
                     |(p & n & d & w' & Hacc & Hin & _ & -> & _)].
  - by intros [[=] _]%elem_of_replicate.
  - intros [[[=] _]%elem_of_replicate|Hq%open_in_cut]%elem_of_app. by subst q.
Qed.

(** X12.  Everything the prompted script prints is the complaint
    ["Invalid image path. Try again."], once for each path that
    [os.path.isfile] refused. *)
Theorem complaints_match_refusals stdin (w : world) :
  printed (transcript (Prompts.main (T:=T) stdin w)) =
  replicate (length (refused (transcript (Prompts.main (T:=T) stdin w))))
            "Invalid image path. Try again."%string.
Proof.
  destruct (main_session stdin w) as [_ Hcases]. cbn zeta in Hcases.
  rewrite printed_of_calls.
  destruct Hcases as [(e & _ & _ & _ & _ & ->)
                     |(p & n & d & w' & _ & _ & _ & -> & _)].
  - apply printed_complaints.
  - by rewrite omap_app, printed_complaints, printed_prompted_cut, app_nil_r.
Qed.

(** X13.  The lines are read in order, none skipped and none read twice:
    the lines typed in the session followed by the lines left unread are
    [sys.stdin].  A session that reaches the routine has read three lines
    more than it has refused paths. *)
Theorem lines_read_in_order stdin (w : world) :
  answers (transcript (Prompts.main (T:=T) stdin w)) ++
    unread (Prompts.main (T:=T) stdin w) = stdin /\
  (forall q, EOpen q ∈ calls (transcript (Prompts.main (T:=T) stdin w)) ->
     length (answers (transcript (Prompts.main (T:=T) stdin w))) =
       (length (refused (transcript (Prompts.main (T:=T) stdin w))) + 3)%nat).
Proof.
  destruct (main_session stdin w) as [Hans Hcases]. cbn zeta in Hans, Hcases.
  split; [done|]. intros q.
  destruct Hcases as [(e & _ & _ & _ & _ & ->)
                     |(p & n & d & w' & _ & _ & Hlen & _)].
  - by intros [[=] _]%elem_of_replicate.
  - done.
Qed.


(** The loop on a user who types the paths of [bad], none of them a file,
    then [good]: it refuses each of the former, accepts the latter and
    leaves the rest unread. *)
Lemma while_not_isfile_refusals `{!TerminalLaws H T} bad good rest (w0 : world) :
  Forall (fun q => os_path_isfile q w0 = false) bad ->
  os_path_isfile good w0 = true ->
  let r := match bad with
           | [] => while_not_isfile (T:=T) good rest w0
           | b :: bad' => while_not_isfile (T:=T) b (bad' ++ good :: rest) w0
           end in
  refused (transcript r) = bad /\
  accepted (transcript r) = [good] /\
  answers (transcript r) = tail (bad ++ [good]) /\
  calls (transcript r) =
    replicate (length bad) (EPrint "Invalid image path. Try again.") /\
  unread r = rest /\
  ended r = inr good /\
  world_after r =
    Nat.iter (length bad)
      (fun w1 => show_prompt "Enter the image path: "
                   (builtin_print "Invalid image path. Try again." w1)) w0.
Proof.
  revert w0. induction bad as [|b bad' IH]; intros w0 Hbad Hgood.
  { cbn zeta. destruct rest; cbn [while_not_isfile]; rewrite Hgood; by split_and!. }
  apply Forall_cons in Hbad as [Hb Hbad'].
  set (w2 := show_prompt "Enter the image path: "
               (builtin_print "Invalid image path. Try again." w0)).
  assert (forall q, os_path_isfile q w2 = os_path_isfile q w0) as Hsame.
  { intros q. unfold w2. by rewrite prompt_isfile, print_isfile. }
  destruct (IH w2) as (Href & Hacc & Hans & Hcalls & Hun & Hend & Hw).
  { eapply Forall_impl; [exact Hbad'|]. intros q Hq. by rewrite Hsame. }
  { by rewrite Hsame. }
  cbn zeta in *.
  assert (while_not_isfile (T:=T) b (bad' ++ good :: rest) w0 =
          let r := match bad' with
                   | [] => while_not_isfile (T:=T) good rest w2
                   | b' :: bad'' => while_not_isfile (T:=T) b' (bad'' ++ good :: rest) w2
                   end in
          Session (TIsfile b false ::
                   TCall (EPrint "Invalid image path. Try again.") ::
                   TInput "Enter the image path: "
                     (Some (hd good (bad' ++ [good]))) :: transcript r)
                  (unread r) (world_after r) (ended r)) as ->.
  { destruct bad' as [|b' bad'']; cbn [app while_not_isfile]; by rewrite Hb. }
  cbn zeta. cbn [transcript unread world_after ended].
  change (?a :: ?b0 :: ?c :: transcript ?r) with ([a; b0; c] ++ transcript r).
  rewrite refused_app, accepted_app, answers_app, calls_app.
  rewrite Href, Hacc, Hans, Hcalls, Hun, Hend, Hw.
  split_and!; try done.
  - by destruct bad'.
  - cbn [length]. by rewrite Nat.iter_succ_r.
Qed.

(** X15.  What a whole session does when image paths keep their status
    while the console is written to ([TerminalLaws]).  If the user types
    the paths of [bad], none of them a file, then [good], which is one,
    then a line that [int] reads as [n], then [dest], the script refuses
    exactly [bad], complains once for each, and ends as
    [cut_image_into_squares good n dest] does, in the world the prompts
    have left; the lines after [dest] stay unread. *)
Theorem session_after_refusals `{!TerminalLaws H T} bad good text n dest rest
    (w : world) :
  Forall (fun q => os_path_isfile q w = false) bad ->
  os_path_isfile good w = true ->
  builtin_int text = Some n ->
  let r := Prompts.main (T:=T) (bad ++ good :: text :: dest :: rest) w in
  let c := cut Prompted good n dest
             (show_prompt "Enter the destination folder name: "
                (show_prompt "Enter the size of the square: "
                   (after_refusals (T:=T) (length bad) w))) in
  refused (transcript r) = bad /\
  accepted (transcript r) = [good] /\
  answers (transcript r) = bad ++ [good; text; dest] /\
  calls (transcript r) =
    replicate (length bad) (EPrint "Invalid image path. Try again.") ++ events c /\
  unread r = rest /\
  world_after r = final c /\
  ended r = match outcome c with inl e => inl (Raised e) | inr a => inr a end.
Proof.
  intros Hbad Hgood Hint. cbn zeta. rewrite main_eq.
  set (w1 := show_prompt "Enter the image path: " w).
  assert (forall q, os_path_isfile q w1 = os_path_isfile q w) as Hsame.
  { intros q. unfold w1. by rewrite prompt_isfile. }
  destruct (while_not_isfile_refusals bad good (text :: dest :: rest) w1)
    as (Href & Hacc & Hans & Hcalls & Hun & Hend & Hw).
  { eapply Forall_impl; [exact Hbad|]. intros q Hq. by rewrite Hsame. }
  { by rewrite Hsame. }
  cbn zeta in *.
  assert (exists first lines,
            bad ++ good :: text :: dest :: rest = first :: lines /\
            first :: tail (bad ++ [good]) = bad ++ [good] /\
            match bad with
            | [] => while_not_isfile (T:=T) good (text :: dest :: rest) w1
            | b :: bad' =>
                while_not_isfile (T:=T) b (bad' ++ good :: text :: dest :: rest) w1
            end = while_not_isfile (T:=T) first lines w1)
    as (first & lines & -> & Hfirst & Hloop).
  { destruct bad as [|b bad']; eauto. }
  rewrite Hloop in *. cbn zeta.
  destruct (while_not_isfile first lines w1) as [tl ul wl el].
  cbn [transcript unread world_after ended] in *. subst ul el.
  rewrite Hint. cbn [transcript unread world_after ended].
  tidy_transcript. rewrite Href, Hacc, Hans, Hcalls, Hw.
  unfold after_refusals. fold w1.
  split_and!; try done.
  cbn [app]. rewrite app_comm_cons, Hfirst. by rewrite <- app_assoc.
Qed.

End PromptedClaims.

#[export] Instance ref_terminal_laws : TerminalLaws Ref.host ref_terminal.
Proof. by split. Qed.

(** ** The further properties on the reference host *)


(** X2, witness: the first [save] fails, the second is never tried. *)
Lemma failed_run_keeps_earlier_tiles_witness :
  exists k : nat,
    (k <= 2)%nat /\
    saves (events (cut (H:=Ref.host) Prompted "img.png" 2 "out" ref_blocked)) =
      take k (tile_file Ref.sample 2 "out" <$> grid 1 2).
Proof.
  destruct (failed_run_keeps_earlier_tiles (H:=Ref.host) Prompted "img.png" 2 "out"
              ref_blocked Ref.sample) as (k & Hk & Hsaves & _); [reflexivity|].
  exists k. split; [exact Hk|exact Hsaves].
Defined.

(** X3, witness. *)
Lemma success_line_iff_returns_witness :
  EPrint "Images successfully applied to folder."
    ∈ events (cut (H:=Ref.host) ArgumentDriven "img.png" 2 "out" Ref.disk).
Proof.
  destruct (success_line_iff_returns (H:=Ref.host) "img.png" 2 "out" Ref.disk)
    as ([_ Hprinted] & _ & _).
  apply Hprinted. reflexivity.
Defined.

(** X4, witness: both copies fail alike on the blocked folder. *)
Lemma copies_differ_by_last_line_witness :
  cut (H:=Ref.host) ArgumentDriven "img.png" 2 "out" ref_blocked =
  cut (H:=Ref.host) Prompted "img.png" 2 "out" ref_blocked.
Proof.
  destruct (copies_differ_by_last_line (H:=Ref.host) "img.png" 2 "out" ref_blocked)
    as [Hfail _].
  apply (Hfail (OSError IsADirectoryError)). reflexivity.
Defined.

(** X5, witness: the source pixel (3, 1) is the pixel (1, 1) of the square
    of row 0, column 1. *)
Lemma covered_pixel_in_one_tile_witness :
  pixel_at (crop Ref.sample (tile_box 2 0 1)) 1 1 = pixel_at Ref.sample 3 1.
Proof.
  destruct (covered_pixel_in_one_tile (H:=Ref.host) Prompted "img.png" 2 "out"
              Ref.disk Ref.sample 3 1) as (_ & _ & Hpx & _);
    [reflexivity|lia|reflexivity|vm_compute; split; congruence
    |vm_compute; split; congruence|].
  exact Hpx.
Defined.


(** A returning run on the reference host has saved the square of row 0,
    column 1. *)
Lemma ref_saved_0_1 :
  tile_file Ref.sample 2 "out" (0, 1)
    ∈ saves (events (cut (H:=Ref.host) Prompted "img.png" 2 "out" Ref.disk)).
Proof.
  rewrite (saves_cut (H:=Ref.host) Prompted "img.png" 2 "out" Ref.disk Ref.sample
             eq_refl eq_refl).
  apply list_elem_of_fmap. exists (0, 1). split; [reflexivity|].
  apply elem_of_grid. vm_compute. repeat split; congruence.
Qed.

(** X7, witness. *)
Lemma writes_stay_in_destination_witness :
  exists j i,
    ("out/square_0_1.png" : string) = os_path_join "out" (file_name j i) /\
    free_of "/" (file_name j i).
Proof.
  destruct (writes_stay_in_destination (H:=Ref.host) Prompted "img.png" 2 "out"
              Ref.disk) as [_ Hsaves].
  destruct (Hsaves "out/square_0_1.png" (crop Ref.sample (tile_box 2 0 1))
              ref_saved_0_1) as (j & i & _ & _ & Hpath & _ & Hfree).
  exists j, i. split; [exact Hpath|exact Hfree].
Defined.

(** X8, witness: the square of row 0, column 1 read back. *)
Lemma tiles_read_back_witness :
  Image_open (Host:=Ref.host) "out/square_0_1.png"
    (final (cut (H:=Ref.host) Prompted "img.png" 2 "out" Ref.disk)) =
  inr (crop Ref.sample (tile_box 2 0 1)).
Proof.
  destruct (tiles_read_back (H:=Ref.host) Prompted "img.png" 2 "out"
              Ref.disk Ref.sample) as [Hback _]; [reflexivity|reflexivity|].
  apply (Hback 0 1); vm_compute; split; congruence.
Defined.

(** X9, witness. *)
Lemma usage_line_iff_wrong_arity_witness :
  EPrint "Usage: script.py <image_path> <square_size> <destination_folder>"
    ∈ events (CropImage.main (H:=Ref.host) ["crop_image.py"; "img.png"] Ref.disk).
Proof.
  apply (usage_line_iff_wrong_arity (H:=Ref.host) ["crop_image.py"; "img.png"]
           Ref.disk).
  simpl. lia.
Defined.

(** X10, witness: an edge that is not a number. *)
Lemma main_exit_status_witness :
  CropImage.main (H:=Ref.host) ["crop_image.py"; "img.png"; "two"; "out"] Ref.disk =
    Result (H:=Ref.host) [] Ref.disk (inl ValueError) /\
  exit_status (outcome (CropImage.main (H:=Ref.host)
                 ["crop_image.py"; "img.png"; "two"; "out"] Ref.disk)) = 1.
Proof.
  destruct (main_exit_status (H:=Ref.host)
              ["crop_image.py"; "img.png"; "two"; "out"] Ref.disk)
    as (_ & _ & Hbad).
  split; [|reflexivity].
  apply (Hbad "crop_image.py" "img.png" "two" "out"); reflexivity.
Defined.

(** On the reference host the user types a wrong path, then the image,
    the edge and the folder, and one line too many. *)
Lemma ref_session_opens :
  EOpen "img.png"
    ∈ calls (transcript (Prompts.main (T:=ref_terminal)
                           ["nope"; "img.png"; "2"; "out"; "extra"] Ref.disk)).
Proof. vm_compute. right. left. Qed.

(** X11, witness. *)
Lemma opens_only_accepted_path_witness :
  accepted (transcript (Prompts.main (T:=ref_terminal)
                          ["nope"; "img.png"; "2"; "out"; "extra"] Ref.disk)) =
    ["img.png"]%string.
Proof.
  destruct (opens_only_accepted_path (T:=ref_terminal)
              ["nope"; "img.png"; "2"; "out"; "extra"] Ref.disk "img.png"
              ref_session_opens) as [Hacc _].
  exact Hacc.
Defined.

(** X12, witness. *)
Lemma complaints_match_refusals_witness :
  printed (transcript (Prompts.main (T:=ref_terminal)
                         ["nope"; "img.png"; "2"; "out"; "extra"] Ref.disk)) =
    ["Invalid image path. Try again."]%string.
Proof.
  rewrite (complaints_match_refusals (T:=ref_terminal)
             ["nope"; "img.png"; "2"; "out"; "extra"] Ref.disk).
  reflexivity.
Defined.

(** X13, witness. *)
Lemma lines_read_in_order_witness :
  length (answers (transcript (Prompts.main (T:=ref_terminal)
                                 ["nope"; "img.png"; "2"; "out"; "extra"] Ref.disk))) =
  (length (refused (transcript (Prompts.main (T:=ref_terminal)
                                  ["nope"; "img.png"; "2"; "out"; "extra"] Ref.disk)))
   + 3)%nat.
Proof.
  destruct (lines_read_in_order (T:=ref_terminal)
              ["nope"; "img.png"; "2"; "out"; "extra"] Ref.disk) as [_ Hlen].
  exact (Hlen "img.png" ref_session_opens).
Defined.


(** X15, witness. *)
Lemma session_after_refusals_witness :
  unread (Prompts.main (T:=ref_terminal)
            ["nope"; "img.png"; "2"; "out"; "extra"] Ref.disk) = ["extra"]%string /\
  ended (Prompts.main (T:=ref_terminal)
           ["nope"; "img.png"; "2"; "out"; "extra"] Ref.disk) = inr tt.
Proof.
  destruct (session_after_refusals (T:=ref_terminal) ["nope"] "img.png" "2" 2 "out"
              ["extra"] Ref.disk) as (_ & _ & _ & _ & Hun & _ & Hend);
    [repeat constructor|reflexivity|reflexivity|].
  split; [exact Hun|exact Hend].
Defined.
